(** * Trello-Desktop-MCP: tool dispatch and validation layer

    A shallow embedding of [src/server.ts], [src/tools/boards.ts] and
    [src/tools/checklists.ts].  JavaScript values are modelled by the
    inductive [JS.Value]; objects are association lists in insertion
    order (first binding wins on lookup); numbers are rationals, which
    cover every finite JSON number and make comparison with [0] exact.
    A character of a Rocq [string] stands for one UTF-16 code unit.

    Asynchronous handlers are modelled in a small monad [Trello.M] that
    threads the log of collaborator-client calls and an abrupt
    completion (a thrown value), so that [try]/[catch] and "no network
    call was attempted" can both be stated. *)

From Stdlib Require Import String Ascii List Bool Arith NArith ZArith QArith Lia.
Import ListNotations.
Close Scope Q_scope.
Open Scope string_scope.
Set Warnings "-register-all,-abstract-large-number".

(** The double-quote character, used inside template literals. *)
Definition dq : string := String (Ascii.Ascii false true false false false true false false) EmptyString.

(* ================================================================== *)
(** * JavaScript values and completions *)
(* ================================================================== *)

Module JS.

Inductive Value : Type :=
| VUndefined
| VNull
| VBool (b : bool)
| VNum (q : Q)
| VStr (s : string)
| VArr (items : list Value)
| VObj (props : list (string * Value)).

Definition Obj := list (string * Value).

(** [o[k]] for an own data property; a missing key reads [undefined]. *)
Fixpoint prop (k : string) (o : Obj) : Value :=
  match o with
  | [] => VUndefined
  | (k', v) :: rest => if String.eqb k k' then v else prop k rest
  end.

(** [Object.hasOwn(o, k)] *)
Fixpoint has_own (k : string) (o : Obj) : bool :=
  match o with
  | [] => false
  | (k', _) :: rest => String.eqb k k' || has_own k rest
  end.

Definition keys (o : Obj) : list string := map fst o.

(** [v !== undefined] *)
Definition defined (v : Value) : bool :=
  match v with VUndefined => false | _ => true end.

(** [v == null], i.e. [v] is [null] or [undefined]. *)
Definition nullish (v : Value) : bool :=
  match v with VUndefined | VNull => true | _ => false end.

(** ToBoolean.  There is no NaN among the modelled numbers. *)
Definition truthy (v : Value) : bool :=
  match v with
  | VUndefined | VNull => false
  | VBool b => b
  | VNum q => negb (Qeq_bool q 0%Q)
  | VStr s => negb (String.eqb s "")
  | VArr _ | VObj _ => true
  end.

(** [a || b] *)
Definition logical_or (a b : Value) : Value := if truthy a then a else b.

(** [a ?? b] *)
Definition coalesce (a b : Value) : Value := if nullish a then b else a.

(** [o?.k] where [o] is an object, [null] or [undefined]. *)
Definition opt_chain (o : Value) (k : string) : Value :=
  match o with
  | VObj ps => prop k ps
  | _ => VUndefined
  end.

(** [...(c && { k: v })] inside an object literal: spreading [false]
    adds nothing, spreading the one-property object adds [k]. *)
Definition spread_if (c : bool) (k : string) (v : Value) : Obj :=
  if c then [(k, v)] else [].

(** The issues a [ZodError] carries: a code, the path of the offending
    key, and the message when the schema gives one. *)
Inductive IssueCode : Type :=
| invalid_type | too_small | too_big | invalid_string
| invalid_enum_value | invalid_union.

Record ZodIssue : Type := mkIssue {
  code : IssueCode;
  path : list string;
  message : option string   (* [Some m]: the message given in the schema *)
}.

Definition ZodError := list ZodIssue.

(** What a [throw] can carry, as far as the handlers' [catch] blocks
    distinguish it: a [ZodError] with its issues, another [Error] with
    its message, or a value that is no [Error] at all. *)
Inductive Thrown : Type :=
| ThrowZod (e : ZodError)
| ThrowError (msg : string)
| ThrowOther (v : Value).

Inductive Completion (A : Type) : Type :=
| Normal (a : A)
| Abrupt (t : Thrown).
Arguments Normal {A} a.
Arguments Abrupt {A} t.

End JS.

(* ================================================================== *)
(** * The schema library (zod), as far as the tools use it *)
(* ================================================================== *)

(** [z.string()], [z.number()], [z.boolean()], [z.enum], [z.union],
    [.optional()], [.nullable()] and [z.object(...).parse], following
    the library's [_parse] methods.  A parse result is valid, dirty (a
    value together with issues) or aborted; [parse] throws a [ZodError]
    unless the result is valid.  An object schema is in the default
    mode: keys outside its shape are dropped.  The test behind
    [.datetime()] is left to the environment ([datetime_regex]). *)

Module Zod.
Import JS.

Inductive StringCheck : Type :=
| s_min (n : N) (msg : option string)
| s_max (n : N) (msg : option string)
| s_regex (test : string -> bool) (msg : option string)
| s_datetime (test : string -> bool).

Inductive NumberCheck : Type :=
| n_min (bound : Q).

Inductive ZType : Type :=
| z_string (checks : list StringCheck)
| z_number (checks : list NumberCheck)
| z_boolean
| z_enum (values : list string)
| z_union (options : list ZType)
| z_optional (inner : ZType)
| z_nullable (inner : ZType).

Definition Shape := list (string * ZType).

Inductive ParseReturn (A : Type) : Type :=
| OK (a : A)
| DIRTY (a : A) (issues : ZodError)
| INVALID (issues : ZodError).
Arguments OK {A} a.
Arguments DIRTY {A} a issues.
Arguments INVALID {A} issues.

Definition issues_of {A} (r : ParseReturn A) : ZodError :=
  match r with OK _ => [] | DIRTY _ i => i | INVALID i => i end.

Definition aborted {A} (r : ParseReturn A) : bool :=
  match r with INVALID _ => true | _ => false end.

Definition value_of (r : ParseReturn Value) : Value :=
  match r with OK v => v | DIRTY v _ => v | INVALID _ => VUndefined end.

Definition is_valid {A} (r : ParseReturn A) : bool :=
  match r with OK _ => true | _ => false end.

Definition string_issue (p : list string) (s : string) (c : StringCheck) : ZodError :=
  match c with
  | s_min n msg => if N.ltb (N.of_nat (String.length s)) n then [mkIssue too_small p msg] else []
  | s_max n msg => if N.ltb n (N.of_nat (String.length s)) then [mkIssue too_big p msg] else []
  | s_regex test msg => if test s then [] else [mkIssue invalid_string p msg]
  | s_datetime test => if test s then [] else [mkIssue invalid_string p None]
  end.

Definition number_issue (p : list string) (q : Q) (c : NumberCheck) : ZodError :=
  match c with
  | n_min bound => if Qle_bool bound q then [] else [mkIssue too_small p None]
  end.

Definition with_issues (v : Value) (i : ZodError) : ParseReturn Value :=
  match i with [] => OK v | _ => DIRTY v i end.

(** [schema._parse] at path [p]. *)
Fixpoint parse (t : ZType) (p : list string) (v : Value) {struct t} : ParseReturn Value :=
  match t with
  | z_string checks =>
      match v with
      | VStr s => with_issues v (flat_map (string_issue p s) checks)
      | _ => INVALID [mkIssue invalid_type p None]
      end
  | z_number checks =>
      match v with
      | VNum q => with_issues v (flat_map (number_issue p q) checks)
      | _ => INVALID [mkIssue invalid_type p None]
      end
  | z_boolean =>
      match v with
      | VBool _ => OK v
      | _ => INVALID [mkIssue invalid_type p None]
      end
  | z_enum values =>
      match v with
      | VStr s => if existsb (String.eqb s) values then OK v
                  else INVALID [mkIssue invalid_enum_value p None]
      | _ => INVALID [mkIssue invalid_type p None]
      end
  | z_union options =>
      (fix try_options (os : list ZType) (dirty : option (ParseReturn Value)) : ParseReturn Value :=
         match os with
         | [] => match dirty with
                 | Some r => r
                 | None => INVALID [mkIssue invalid_union p None]
                 end
         | o :: os' =>
             match parse o p v with
             | OK v' => OK v'
             | DIRTY v' i =>
                 try_options os' (match dirty with None => Some (DIRTY v' i) | Some d => Some d end)
             | INVALID _ => try_options os' dirty
             end
         end) options None
  | z_optional inner =>
      match v with
      | VUndefined => OK VUndefined
      | _ => parse inner p v
      end
  | z_nullable inner =>
      match v with
      | VNull => OK VNull
      | _ => parse inner p v
      end
  end.

(** [z.object(shape)._parse]: every key of the shape is parsed against
    [data[key]] and the issues of all keys are collected; the result
    is aborted when a key is, dirty when a key is dirty, and it holds
    the keys of the shape only. *)
Definition parse_object (shape : Shape) (v : Value) : ParseReturn Obj :=
  match v with
  | VObj data =>
      let pairs := map (fun kt => (fst kt, parse (snd kt) [fst kt] (prop (fst kt) data))) shape in
      let issues := flat_map (fun kr => issues_of (snd kr)) pairs in
      if existsb (fun kr => aborted (snd kr)) pairs then INVALID issues
      else
        let final :=
          flat_map (fun kr : string * ParseReturn Value =>
                      let x := value_of (snd kr) in
                      if defined x || has_own (fst kr) data then [(fst kr, x)] else [])
                   pairs in
        if forallb (fun kr => is_valid (snd kr)) pairs then OK final
        else DIRTY final issues
  | _ => INVALID [mkIssue invalid_type [] None]
  end.

(** [z.object(shape).parse(args)] *)
Definition schema_parse (shape : Shape) (args : Value) : Completion Obj :=
  match parse_object shape args with
  | OK o => Normal o
  | DIRTY _ i => Abrupt (ThrowZod i)
  | INVALID i => Abrupt (ThrowZod i)
  end.

(** ** Regular expressions of the source

    [/^[a-f0-9]{24}$/] has no flags, so [^] and [$] match only at the
    two ends of the input. *)

Definition in_range (lo hi c : ascii) : bool :=
  Nat.leb (nat_of_ascii lo) (nat_of_ascii c) && Nat.leb (nat_of_ascii c) (nat_of_ascii hi).

(** [[a-f0-9]] *)
Definition class_a_f_0_9 (c : ascii) : bool :=
  in_range "a" "f" c || in_range "0" "9" c.

(** [/^C{n}$/.test(s)] for a character class [C]. *)
Fixpoint anchored_repeat (cls : ascii -> bool) (n : nat) (s : string) : bool :=
  match n, s with
  | O, EmptyString => true
  | S n', String c s' => cls c && anchored_repeat cls n' s'
  | _, _ => false
  end.

(** [/^[a-f0-9]{24}$/.test(s)] *)
Definition trello_id_regex (s : string) : bool := anchored_repeat class_a_f_0_9 24 s.

End Zod.

(* ================================================================== *)
(** * The collaborator client and the handlers' effects *)
(* ================================================================== *)

Module Trello.
Import JS.

(** [new TrelloClient({ apiKey, token })]; constructing a client is
    taken to succeed and to make no network call. *)
Record Credentials : Type := mkCredentials { apiKey : Value; token : Value }.

(** [TrelloApiResponse<T>]: the handlers read [data] and [rateLimit]. *)
Record TrelloApiResponse : Type := mkResponse { data : Value; rateLimit : Value }.

(** The methods of [TrelloClient] called from [boards.ts] and
    [checklists.ts], with their arguments; [otherCall] stands for the
    methods called from the tool files that are not part of this
    development. *)
Inductive ClientCall : Type :=
| createBoard (c : Credentials) (payload : Obj)
| getMyBoards (c : Credentials) (filter : Value)
| getBoard (c : Credentials) (boardId includeDetails : Value)
| getBoardLists (c : Credentials) (boardId filter : Value)
| createChecklist (c : Credentials) (payload : Obj)
| getChecklist (c : Credentials) (checklistId : Value)
| updateChecklist (c : Credentials) (checklistId : Value) (payload : Obj)
| deleteChecklist (c : Credentials) (checklistId : Value)
| createChecklistItem (c : Credentials) (checklistId : Value) (payload : Obj)
| updateChecklistItem (c : Credentials) (cardId checkItemId : Value) (payload : Obj)
| deleteChecklistItem (c : Credentials) (checklistId checkItemId : Value)
| otherCall (method : string) (c : Credentials) (arguments : list Value).

(** A client answers a call with a settled promise: a response, or a
    rejection carrying the thrown value. *)
Definition TrelloClient := ClientCall -> Completion TrelloApiResponse.

(** An asynchronous computation: the client calls it made, in order,
    and how it completed. *)
Definition M (A : Type) : Type := (list ClientCall * Completion A)%type.

Definition ret {A} (a : A) : M A := ([], Normal a).

Definition throw {A} (t : Thrown) : M A := ([], Abrupt t).

Definition lift {A} (c : Completion A) : M A := ([], c).

Definition bind {A B} (m : M A) (k : A -> M B) : M B :=
  match m with
  | (l, Normal a) => match k a with (l', r) => ((l ++ l')%list, r) end
  | (l, Abrupt t) => (l, Abrupt t)
  end.

(** [await client.method(...)] *)
Definition await (client : TrelloClient) (req : ClientCall) : M TrelloApiResponse :=
  ([req], client req).

(** [try { body } catch (error) { handler }] *)
Definition try_catch {A} (body : M A) (handler : Thrown -> M A) : M A :=
  match body with
  | (l, Normal a) => (l, Normal a)
  | (l, Abrupt t) => match handler t with (l', r) => ((l ++ l')%list, r) end
  end.

(** The response envelope of a tool call. *)
Record TextContent : Type := mkText { type : string; text : string }.

Record Envelope : Type := mkEnvelope {
  content : list TextContent;
  isError : option bool        (* [None]: the property is absent *)
}.

(** [Tool] of the MCP SDK. *)
Record Tool : Type := mkTool {
  name : string;
  description : string;
  inputSchema : Value
}.

(** Tool modules imported by [server.ts] whose files are not part of
    this development ([cards.ts], [search.ts], [lists.ts], [members.ts],
    [advanced.ts]), by the imported identifier without its suffix. *)
Inductive OtherTool : Type :=
| trelloSearch | trelloGetUserBoards | getCard | createCard | updateCard
| moveCard | trelloAddComment | trelloGetListCards | trelloCreateList
| trelloGetMember | trelloGetBoardCards | trelloGetCardActions
| trelloGetCardAttachments | trelloGetCardChecklists
| trelloGetBoardMembers | trelloGetBoardLabels.

(** Everything the modelled files take from outside: builtins of the
    JavaScript runtime and of the schema library, the helpers of
    [utils/validation.ts], the collaborator client, and the other tool
    modules. *)
Record Env : Type := mkEnv {
  (* runtime *)
  JSON_stringify : Value -> string;           (* [JSON.stringify(v, null, 2)] *)
  Number_toString : Q -> string;
  TypeError_message : Value -> string -> string;     (* reading [k] of [null] or [undefined] *)
  NotAFunction_message : string -> Value -> string;  (* calling [callee], read from a receiver *)
  ToPrimitive_message : Value -> string;             (* an object without a usable conversion *)
  (* schema library *)
  datetime_regex : string -> bool;            (* the test behind [z.string().datetime()] *)
  (* utils/validation.ts *)
  formatValidationError : ZodError -> string;
  validateListBoards : Value -> Completion Obj;
  validateGetBoard : Value -> Completion Obj;
  validateGetBoardLists : Value -> Completion Obj;
  (* trello/client.ts *)
  client : TrelloClient;
  (* the other tool modules *)
  other_tool : OtherTool -> Tool;
  other_handle : OtherTool -> Value -> M Envelope
}.

Section Runtime.
Variable env : Env.

(** Whether the conversion of [v] to a string completes.  An object
    is converted by its [toString] method and then by [valueOf]: an
    own [toString] property holds data, never a function, and shadows
    [Object.prototype.toString]; [Object.prototype.valueOf] returns
    the object itself, so the conversion then ends in a [TypeError].
    An array is converted by joining the conversions of its elements
    that are neither [null] nor [undefined]. *)
Fixpoint convertible (v : Value) : bool :=
  match v with
  | VObj ps => negb (has_own "toString" ps)
  | VArr items => forallb (fun x => nullish x || convertible x) items
  | _ => true
  end.

(** The text of [String(v)] for a value whose conversion completes:
    an object then has no own [toString] and inherits
    [Object.prototype.toString].  The handlers convert through
    [ToString] below, which throws on every other value. *)
Fixpoint String_ (v : Value) : string :=
  match v with
  | VUndefined => "undefined"
  | VNull => "null"
  | VBool true => "true"
  | VBool false => "false"
  | VNum q => Number_toString env q
  | VStr s => s
  | VArr items =>
      (fix join (l : list Value) : string :=
         match l with
         | [] => ""
         | [x] => (if nullish x then "" else String_ x)
         | x :: rest => (if nullish x then "" else String_ x) ++ "," ++ join rest
         end) items
  | VObj _ => "[object Object]"
  end.

(** [${v}] in a template literal: the text of a convertible value, and
    the [TypeError] of the conversion for any other. *)
Definition ToString (v : Value) : M string :=
  if convertible v then ret (String_ v)
  else throw (ThrowError (ToPrimitive_message env v)).

(** The first property read [v.k] on a value: a [TypeError] when [v] is
    [null] or [undefined]; otherwise the own data properties that later
    reads [v.k'] see (none for a primitive or an array, whose
    prototypes define none of the names the handlers read). *)
Definition deref (v : Value) (k : string) : M Obj :=
  match v with
  | VUndefined | VNull => throw (ThrowError (TypeError_message env v k))
  | VObj ps => ret ps
  | _ => ret []
  end.

(** [v.length] *)
Definition length_of (v : Value) : M Value :=
  match v with
  | VUndefined | VNull => throw (ThrowError (TypeError_message env v "length"))
  | VArr items => ret (VNum (inject_Z (Z.of_nat (List.length items))))
  | VStr s => ret (VNum (inject_Z (Z.of_nat (String.length s))))
  | VObj ps => ret (prop "length" ps)
  | _ => ret VUndefined
  end.

Fixpoint traverse (f : Value -> M Value) (items : list Value) : M (list Value) :=
  match items with
  | [] => ret []
  | x :: rest => bind (f x) (fun y => bind (traverse f rest) (fun ys => ret (y :: ys)))
  end.

(** [v.map(f)], written [callee] in the source: defined on arrays; on
    anything else the call is a [TypeError] (no modelled value is a
    function), whose text the runtime derives from the callee
    expression. *)
Definition array_map (callee : string) (v : Value) (f : Value -> M Value) : M Value :=
  match v with
  | VArr items => bind (traverse f items) (fun ys => ret (VArr ys))
  | VUndefined | VNull => throw (ThrowError (TypeError_message env v "map"))
  | _ => throw (ThrowError (NotAFunction_message env callee v))
  end.

(** [v?.map(f)] *)
Definition opt_array_map (callee : string) (v : Value) (f : Value -> M Value) : M Value :=
  if nullish v then ret VUndefined else array_map callee v f.

(** The success envelope every handler returns. *)
Definition success (result : Value) : Envelope :=
  {| content := [ {| type := "text"; text := JSON_stringify env result |} ];
     isError := None |}.

(** The message chosen in every handler's [catch] block. *)
Definition errorMessage (error : Thrown) : string :=
  match error with
  | ThrowZod e => formatValidationError env e
  | ThrowError msg => msg
  | ThrowOther _ => "Unknown error occurred"
  end.

(** The [catch] block of a handler whose error text starts with [prefix]. *)
Definition catch_block (prefix : string) (error : Thrown) : M Envelope :=
  ret {| content := [ {| type := "text"; text := prefix ++ errorMessage error |} ];
         isError := Some true |}.

End Runtime.

End Trello.

Import JS Zod Trello.

Notation "x <- m ;; k" := (bind m (fun x => k))
  (at level 61, m at next level, right associativity).

(* ================================================================== *)
(** * src/tools/boards.ts *)
(* ================================================================== *)

Definition validateCreateBoard_schema : Shape := [
  ("apiKey", z_string [s_min 1%N (Some "API key is required")]);
  ("token", z_string [s_min 1%N (Some "Token is required")]);
  ("name", z_string [s_min 1%N (Some "Board name is required"); s_max 16384%N None]);
  ("desc", z_optional (z_string [s_max 16384%N None]));
  ("idOrganization", z_optional (z_string [s_regex trello_id_regex (Some "Invalid organization ID")]));
  ("defaultLabels", z_optional z_boolean);
  ("defaultLists", z_optional z_boolean);
  ("prefs_permissionLevel", z_optional (z_enum ["org"; "private"; "public"; "enterprise"]));
  ("prefs_background", z_optional (z_string []))
].

Definition validateCreateBoard (args : Value) : Completion Obj :=
  schema_parse validateCreateBoard_schema args.

Definition createBoardTool : Tool :=
  {| name := "trello_create_board";
     description := "Create a new Trello board. Optionally set its description, visibility, default lists, and workspace.";
     inputSchema := VObj [
         ("type", VStr "object");
         ("properties", VObj [
           ("apiKey", VObj [
             ("type", VStr "string");
             ("description", VStr "Trello API key (automatically provided by Claude.app from your stored credentials)") ]);
           ("token", VObj [
             ("type", VStr "string");
             ("description", VStr "Trello API token (automatically provided by Claude.app from your stored credentials)") ]);
           ("name", VObj [
             ("type", VStr "string");
             ("description", VStr "Name of the new board") ]);
           ("desc", VObj [
             ("type", VStr "string");
             ("description", VStr "Optional description for the board") ]);
           ("idOrganization", VObj [
             ("type", VStr "string");
             ("description", VStr "Optional workspace/organization ID to add the board to");
             ("pattern", VStr "^[a-f0-9]{24}$") ]);
           ("defaultLabels", VObj [
             ("type", VStr "boolean");
             ("description", VStr "Whether to create the default labels (red, orange, yellow, green, blue, purple). Defaults to true.");
             ("default", VBool true) ]);
           ("defaultLists", VObj [
             ("type", VStr "boolean");
             ("description", VStr "Whether to create the default lists (To Do, Doing, Done). Defaults to true.");
             ("default", VBool true) ]);
           ("prefs_permissionLevel", VObj [
             ("type", VStr "string");
             ("enum", VArr [VStr "org"; VStr "private"; VStr "public"; VStr "enterprise"]);
             ("description", VStr ("Board visibility: " ++ dq ++ "private" ++ dq ++ " (only members), " ++ dq ++ "org" ++ dq ++ " (workspace members), " ++ dq ++ "public" ++ dq ++ " (anyone)"));
             ("default", VStr "private") ]);
           ("prefs_background", VObj [
             ("type", VStr "string");
             ("description", VStr ("Background color or image ID (e.g. " ++ dq ++ "blue" ++ dq ++ ", " ++ dq ++ "green" ++ dq ++ ", " ++ dq ++ "red" ++ dq ++ ", " ++ dq ++ "orange" ++ dq ++ ", " ++ dq ++ "purple" ++ dq ++ ", " ++ dq ++ "pink" ++ dq ++ ", " ++ dq ++ "lime" ++ dq ++ ", " ++ dq ++ "sky" ++ dq ++ ", " ++ dq ++ "grey" ++ dq ++ ")")) ]) ]);
         ("required", VArr [VStr "apiKey"; VStr "token"; VStr "name"]) ] |}.

Definition listBoardsTool : Tool :=
  {| name := "list_boards";
     description := "List all Trello boards accessible to the user. Use this to see all boards you have access to, or filter by status.";
     inputSchema := VObj [
         ("type", VStr "object");
         ("properties", VObj [
           ("apiKey", VObj [
             ("type", VStr "string");
             ("description", VStr "Trello API key (automatically provided by Claude.app from your stored credentials)") ]);
           ("token", VObj [
             ("type", VStr "string");
             ("description", VStr "Trello API token (automatically provided by Claude.app from your stored credentials)") ]);
           ("filter", VObj [
             ("type", VStr "string");
             ("enum", VArr [VStr "all"; VStr "open"; VStr "closed"]);
             ("description", VStr ("Filter boards by status: " ++ dq ++ "open" ++ dq ++ " for active boards, " ++ dq ++ "closed" ++ dq ++ " for archived boards, " ++ dq ++ "all" ++ dq ++ " for both"));
             ("default", VStr "open") ]) ]);
         ("required", VArr [VStr "apiKey"; VStr "token"]) ] |}.

Definition getBoardDetailsTool : Tool :=
  {| name := "get_board_details";
     description := "Get detailed information about a specific Trello board, including its lists and cards. Useful for understanding board structure and content.";
     inputSchema := VObj [
         ("type", VStr "object");
         ("properties", VObj [
           ("apiKey", VObj [
             ("type", VStr "string");
             ("description", VStr "Trello API key (automatically provided by Claude.app from your stored credentials)") ]);
           ("token", VObj [
             ("type", VStr "string");
             ("description", VStr "Trello API token (automatically provided by Claude.app from your stored credentials)") ]);
           ("boardId", VObj [
             ("type", VStr "string");
             ("description", VStr "The ID of the board to retrieve (you can get this from list_boards)");
             ("pattern", VStr "^[a-f0-9]{24}$") ]);
           ("includeDetails", VObj [
             ("type", VStr "boolean");
             ("description", VStr "Include lists and cards in the response for complete board overview");
             ("default", VBool false) ]) ]);
         ("required", VArr [VStr "apiKey"; VStr "token"; VStr "boardId"]) ] |}.

Definition getListsTool : Tool :=
  {| name := "get_lists";
     description := ("Get all lists in a specific Trello board. Use this to see the workflow columns (like " ++ dq ++ "To Do" ++ dq ++ ", " ++ dq ++ "In Progress" ++ dq ++ ", " ++ dq ++ "Done" ++ dq ++ ") in a board.");
     inputSchema := VObj [
         ("type", VStr "object");
         ("properties", VObj [
           ("apiKey", VObj [
             ("type", VStr "string");
             ("description", VStr "Trello API key (automatically provided by Claude.app from your stored credentials)") ]);
           ("token", VObj [
             ("type", VStr "string");
             ("description", VStr "Trello API token (automatically provided by Claude.app from your stored credentials)") ]);
           ("boardId", VObj [
             ("type", VStr "string");
             ("description", VStr "The ID of the board to get lists from (you can get this from list_boards)");
             ("pattern", VStr "^[a-f0-9]{24}$") ]);
           ("filter", VObj [
             ("type", VStr "string");
             ("enum", VArr [VStr "all"; VStr "open"; VStr "closed"]);
             ("description", VStr ("Filter lists by status: " ++ dq ++ "open" ++ dq ++ " for active lists, " ++ dq ++ "closed" ++ dq ++ " for archived lists, " ++ dq ++ "all" ++ dq ++ " for both"));
             ("default", VStr "open") ]) ]);
         ("required", VArr [VStr "apiKey"; VStr "token"; VStr "boardId"]) ] |}.

Section Boards.
Variable env : Env.

Definition handleCreateBoard (args : Value) : M Envelope :=
  try_catch
    (v <- lift (validateCreateBoard args) ;;
     let apiKey := prop "apiKey" v in
     let token := prop "token" v in
     let name := prop "name" v in
     let desc := prop "desc" v in
     let idOrganization := prop "idOrganization" v in
     let defaultLabels := prop "defaultLabels" v in
     let defaultLists := prop "defaultLists" v in
     let prefs_permissionLevel := prop "prefs_permissionLevel" v in
     let prefs_background := prop "prefs_background" v in
     let credentials := mkCredentials apiKey token in
     response <- await (client env) (createBoard credentials
       ([("name", name)]
        ++ spread_if (defined desc) "desc" desc
        ++ spread_if (defined idOrganization) "idOrganization" idOrganization
        ++ spread_if (defined defaultLabels) "defaultLabels" defaultLabels
        ++ spread_if (defined defaultLists) "defaultLists" defaultLists
        ++ spread_if (defined prefs_permissionLevel) "prefs_permissionLevel" prefs_permissionLevel
        ++ spread_if (defined prefs_background) "prefs_background" prefs_background)%list) ;;
     board <- deref env (data response) "name" ;;
     name' <- ToString env (prop "name" board) ;;
     let result := VObj [
       ("summary", VStr ("Created board: " ++ name'));
       ("board", VObj [
          ("id", prop "id" board);
          ("name", prop "name" board);
          ("description", logical_or (prop "desc" board) (VStr "No description"));
          ("url", prop "shortUrl" board);
          ("closed", prop "closed" board);
          ("permissionLevel", opt_chain (prop "prefs" board) "permissionLevel") ]);
       ("rateLimit", rateLimit response) ] in
     ret (success env result))
    (catch_block env "Error creating board: ").

Definition handleListBoards (args : Value) : M Envelope :=
  try_catch
    (v <- lift (validateListBoards env args) ;;
     let apiKey := prop "apiKey" v in
     let token := prop "token" v in
     let filter := prop "filter" v in
     let credentials := mkCredentials apiKey token in
     response <- await (client env) (getMyBoards credentials filter) ;;
     let boards := data response in
     len <- length_of env boards ;;
     len' <- ToString env len ;;
     filter' <- ToString env filter ;;
     let summary := "Found " ++ len' ++ " " ++ filter' ++ " board(s)" in
     boardList <- array_map env "boards.map" boards (fun b =>
       board <- deref env b "id" ;;
       ret (VObj [
         ("id", prop "id" board);
         ("name", prop "name" board);
         ("description", logical_or (prop "desc" board) (VStr "No description"));
         ("url", prop "shortUrl" board);
         ("lastActivity", prop "dateLastActivity" board);
         ("closed", prop "closed" board) ])) ;;
     ret (success env (VObj [
       ("summary", VStr summary);
       ("boards", boardList);
       ("rateLimit", rateLimit response) ])))
    (catch_block env "Error listing boards: ").

Definition handleGetBoardDetails (args : Value) : M Envelope :=
  try_catch
    (v <- lift (validateGetBoard env args) ;;
     let apiKey := prop "apiKey" v in
     let token := prop "token" v in
     let boardId := prop "boardId" v in
     let includeDetails := prop "includeDetails" v in
     let credentials := mkCredentials apiKey token in
     response <- await (client env) (getBoard credentials boardId includeDetails) ;;
     board <- deref env (data response) "name" ;;
     name' <- ToString env (prop "name" board) ;;
     details <-
       (if truthy includeDetails then
          lists <- opt_array_map env "board.lists?.map" (prop "lists" board) (fun l =>
            list <- deref env l "id" ;;
            ret (VObj [
              ("id", prop "id" list);
              ("name", prop "name" list);
              ("position", prop "pos" list);
              ("closed", prop "closed" list) ])) ;;
          cards <- opt_array_map env "board.cards?.map" (prop "cards" board) (fun c =>
            card <- deref env c "id" ;;
            labels <- opt_array_map env "card.labels?.map" (prop "labels" card) (fun l =>
              label <- deref env l "id" ;;
              ret (VObj [
                ("id", prop "id" label);
                ("name", prop "name" label);
                ("color", prop "color" label) ])) ;;
            ret (VObj [
              ("id", prop "id" card);
              ("name", prop "name" card);
              ("description", prop "desc" card);
              ("url", prop "shortUrl" card);
              ("listId", prop "idList" card);
              ("position", prop "pos" card);
              ("due", prop "due" card);
              ("closed", prop "closed" card);
              ("labels", logical_or labels (VArr [])) ])) ;;
          ret [("lists", logical_or lists (VArr [])); ("cards", logical_or cards (VArr []))]
        else ret []) ;;
     let result := VObj [
       ("summary", VStr ("Board: " ++ name'));
       ("board", VObj ([
          ("id", prop "id" board);
          ("name", prop "name" board);
          ("description", logical_or (prop "desc" board) (VStr "No description"));
          ("url", prop "shortUrl" board);
          ("lastActivity", prop "dateLastActivity" board);
          ("closed", prop "closed" board);
          ("permissions", logical_or (opt_chain (prop "prefs" board) "permissionLevel") (VStr "unknown")) ]
          ++ details)%list);
       ("rateLimit", rateLimit response) ] in
     ret (success env result))
    (catch_block env "Error getting board details: ").

Definition handleGetLists (args : Value) : M Envelope :=
  try_catch
    (v <- lift (validateGetBoardLists env args) ;;
     let apiKey := prop "apiKey" v in
     let token := prop "token" v in
     let boardId := prop "boardId" v in
     let filter := prop "filter" v in
     let credentials := mkCredentials apiKey token in
     response <- await (client env) (getBoardLists credentials boardId filter) ;;
     let lists := data response in
     len <- length_of env lists ;;
     len' <- ToString env len ;;
     filter' <- ToString env filter ;;
     mapped <- array_map env "lists.map" lists (fun l =>
       list <- deref env l "id" ;;
       ret (VObj [
         ("id", prop "id" list);
         ("name", prop "name" list);
         ("position", prop "pos" list);
         ("closed", prop "closed" list);
         ("subscribed", prop "subscribed" list) ])) ;;
     let result := VObj [
       ("summary", VStr ("Found " ++ len' ++ " " ++ filter' ++ " list(s) in board"));
       ("boardId", boardId);
       ("lists", mapped);
       ("rateLimit", rateLimit response) ] in
     ret (success env result))
    (catch_block env "Error getting lists: ").

End Boards.

(* ================================================================== *)
(** * src/tools/checklists.ts *)
(* ================================================================== *)

Definition trelloId : ZType :=
  z_string [s_regex trello_id_regex (Some "Invalid Trello ID format")].

(** [z.union([z.number().min(0), z.enum(['top', 'bottom'])])] *)
Definition pos_union : ZType :=
  z_union [z_number [n_min 0%Q]; z_enum ["top"; "bottom"]].

Definition validateCreateChecklist_schema : Shape := [
  ("apiKey", z_string [s_min 1%N (Some "API key is required")]);
  ("token", z_string [s_min 1%N (Some "Token is required")]);
  ("idCard", trelloId);
  ("name", z_optional (z_string [s_min 1%N None; s_max 16384%N None]));
  ("pos", z_optional pos_union);
  ("idChecklistSource", z_optional trelloId)
].

Definition validateCreateChecklist (args : Value) : Completion Obj :=
  schema_parse validateCreateChecklist_schema args.

Definition validateGetChecklist_schema : Shape := [
  ("apiKey", z_string [s_min 1%N (Some "API key is required")]);
  ("token", z_string [s_min 1%N (Some "Token is required")]);
  ("checklistId", trelloId)
].

Definition validateGetChecklist (args : Value) : Completion Obj :=
  schema_parse validateGetChecklist_schema args.

Definition validateUpdateChecklist_schema : Shape := [
  ("apiKey", z_string [s_min 1%N (Some "API key is required")]);
  ("token", z_string [s_min 1%N (Some "Token is required")]);
  ("checklistId", trelloId);
  ("name", z_optional (z_string [s_min 1%N None; s_max 16384%N None]));
  ("pos", z_optional pos_union)
].

Definition validateUpdateChecklist (args : Value) : Completion Obj :=
  schema_parse validateUpdateChecklist_schema args.

Definition validateDeleteChecklist_schema : Shape := [
  ("apiKey", z_string [s_min 1%N (Some "API key is required")]);
  ("token", z_string [s_min 1%N (Some "Token is required")]);
  ("checklistId", trelloId)
].

Definition validateDeleteChecklist (args : Value) : Completion Obj :=
  schema_parse validateDeleteChecklist_schema args.

Definition validateDeleteChecklistItem_schema : Shape := [
  ("apiKey", z_string [s_min 1%N (Some "API key is required")]);
  ("token", z_string [s_min 1%N (Some "Token is required")]);
  ("checklistId", trelloId);
  ("checkItemId", trelloId)
].

Definition validateDeleteChecklistItem (args : Value) : Completion Obj :=
  schema_parse validateDeleteChecklistItem_schema args.

Section ChecklistSchemas.
Variable env : Env.

Definition validateCreateChecklistItem_schema : Shape := [
  ("apiKey", z_string [s_min 1%N (Some "API key is required")]);
  ("token", z_string [s_min 1%N (Some "Token is required")]);
  ("checklistId", trelloId);
  ("name", z_string [s_min 1%N (Some "Item name is required"); s_max 16384%N None]);
  ("pos", z_optional pos_union);
  ("checked", z_optional z_boolean);
  ("due", z_optional (z_string [s_datetime (datetime_regex env)]));
  ("idMember", z_optional trelloId)
].

Definition validateCreateChecklistItem (args : Value) : Completion Obj :=
  schema_parse validateCreateChecklistItem_schema args.

Definition validateUpdateChecklistItem_schema : Shape := [
  ("apiKey", z_string [s_min 1%N (Some "API key is required")]);
  ("token", z_string [s_min 1%N (Some "Token is required")]);
  ("cardId", trelloId);
  ("checkItemId", trelloId);
  ("state", z_optional (z_enum ["complete"; "incomplete"]));
  ("name", z_optional (z_string [s_min 1%N None; s_max 16384%N None]));
  ("pos", z_optional pos_union);
  ("due", z_optional (z_nullable (z_string [s_datetime (datetime_regex env)])));
  ("idMember", z_optional (z_nullable trelloId));
  ("idChecklist", z_optional trelloId)
].

Definition validateUpdateChecklistItem (args : Value) : Completion Obj :=
  schema_parse validateUpdateChecklistItem_schema args.

End ChecklistSchemas.

Definition trelloCreateChecklistTool : Tool :=
  {| name := "trello_create_checklist";
     description := "Create a new checklist on a Trello card. Optionally copy items from an existing checklist.";
     inputSchema := VObj [
         ("type", VStr "object");
         ("properties", VObj [
           ("apiKey", VObj [
             ("type", VStr "string");
             ("description", VStr "Trello API key (automatically provided by Claude.app from your stored credentials)") ]);
           ("token", VObj [
             ("type", VStr "string");
             ("description", VStr "Trello API token (automatically provided by Claude.app from your stored credentials)") ]);
           ("idCard", VObj [
             ("type", VStr "string");
             ("description", VStr "ID of the card to add the checklist to");
             ("pattern", VStr "^[a-f0-9]{24}$") ]);
           ("name", VObj [
             ("type", VStr "string");
             ("description", VStr ("Name of the checklist (defaults to " ++ dq ++ "Checklist" ++ dq ++ " if omitted)")) ]);
           ("pos", VObj [
             ("oneOf", VArr [
               VObj [
                 ("type", VStr "number");
                 ("minimum", VNum 0%Q) ];
               VObj [
                 ("type", VStr "string");
                 ("enum", VArr [VStr "top"; VStr "bottom"]) ] ]);
             ("description", VStr ("Position of the checklist on the card: " ++ dq ++ "top" ++ dq ++ ", " ++ dq ++ "bottom" ++ dq ++ ", or a positive number")) ]);
           ("idChecklistSource", VObj [
             ("type", VStr "string");
             ("description", VStr "ID of an existing checklist to copy items from");
             ("pattern", VStr "^[a-f0-9]{24}$") ]) ]);
         ("required", VArr [VStr "apiKey"; VStr "token"; VStr "idCard"]) ] |}.

Definition trelloGetChecklistTool : Tool :=
  {| name := "trello_get_checklist";
     description := "Get a specific Trello checklist by ID, including all of its check items.";
     inputSchema := VObj [
         ("type", VStr "object");
         ("properties", VObj [
           ("apiKey", VObj [
             ("type", VStr "string");
             ("description", VStr "Trello API key (automatically provided by Claude.app from your stored credentials)") ]);
           ("token", VObj [
             ("type", VStr "string");
             ("description", VStr "Trello API token (automatically provided by Claude.app from your stored credentials)") ]);
           ("checklistId", VObj [
             ("type", VStr "string");
             ("description", VStr "ID of the checklist to retrieve");
             ("pattern", VStr "^[a-f0-9]{24}$") ]) ]);
         ("required", VArr [VStr "apiKey"; VStr "token"; VStr "checklistId"]) ] |}.

Definition trelloUpdateChecklistTool : Tool :=
  {| name := "trello_update_checklist";
     description := "Update the name or position of a Trello checklist.";
     inputSchema := VObj [
         ("type", VStr "object");
         ("properties", VObj [
           ("apiKey", VObj [
             ("type", VStr "string");
             ("description", VStr "Trello API key (automatically provided by Claude.app from your stored credentials)") ]);
           ("token", VObj [
             ("type", VStr "string");
             ("description", VStr "Trello API token (automatically provided by Claude.app from your stored credentials)") ]);
           ("checklistId", VObj [
             ("type", VStr "string");
             ("description", VStr "ID of the checklist to update");
             ("pattern", VStr "^[a-f0-9]{24}$") ]);
           ("name", VObj [
             ("type", VStr "string");
             ("description", VStr "New name for the checklist") ]);
           ("pos", VObj [
             ("oneOf", VArr [
               VObj [
                 ("type", VStr "number");
                 ("minimum", VNum 0%Q) ];
               VObj [
                 ("type", VStr "string");
                 ("enum", VArr [VStr "top"; VStr "bottom"]) ] ]);
             ("description", VStr ("New position: " ++ dq ++ "top" ++ dq ++ ", " ++ dq ++ "bottom" ++ dq ++ ", or a positive number")) ]) ]);
         ("required", VArr [VStr "apiKey"; VStr "token"; VStr "checklistId"]) ] |}.

Definition trelloDeleteChecklistTool : Tool :=
  {| name := "trello_delete_checklist";
     description := "Permanently delete a checklist from a Trello card. This also removes all its check items.";
     inputSchema := VObj [
         ("type", VStr "object");
         ("properties", VObj [
           ("apiKey", VObj [
             ("type", VStr "string");
             ("description", VStr "Trello API key (automatically provided by Claude.app from your stored credentials)") ]);
           ("token", VObj [
             ("type", VStr "string");
             ("description", VStr "Trello API token (automatically provided by Claude.app from your stored credentials)") ]);
           ("checklistId", VObj [
             ("type", VStr "string");
             ("description", VStr "ID of the checklist to delete");
             ("pattern", VStr "^[a-f0-9]{24}$") ]) ]);
         ("required", VArr [VStr "apiKey"; VStr "token"; VStr "checklistId"]) ] |}.

Definition trelloCreateChecklistItemTool : Tool :=
  {| name := "trello_create_checklist_item";
     description := "Add a new check item to an existing Trello checklist.";
     inputSchema := VObj [
         ("type", VStr "object");
         ("properties", VObj [
           ("apiKey", VObj [
             ("type", VStr "string");
             ("description", VStr "Trello API key (automatically provided by Claude.app from your stored credentials)") ]);
           ("token", VObj [
             ("type", VStr "string");
             ("description", VStr "Trello API token (automatically provided by Claude.app from your stored credentials)") ]);
           ("checklistId", VObj [
             ("type", VStr "string");
             ("description", VStr "ID of the checklist to add the item to");
             ("pattern", VStr "^[a-f0-9]{24}$") ]);
           ("name", VObj [
             ("type", VStr "string");
             ("description", VStr "Text/name of the check item") ]);
           ("pos", VObj [
             ("oneOf", VArr [
               VObj [
                 ("type", VStr "number");
                 ("minimum", VNum 0%Q) ];
               VObj [
                 ("type", VStr "string");
                 ("enum", VArr [VStr "top"; VStr "bottom"]) ] ]);
             ("description", VStr ("Position in the checklist: " ++ dq ++ "top" ++ dq ++ ", " ++ dq ++ "bottom" ++ dq ++ ", or a positive number")) ]);
           ("checked", VObj [
             ("type", VStr "boolean");
             ("description", VStr "Whether the item starts as checked (complete)");
             ("default", VBool false) ]);
           ("due", VObj [
             ("type", VStr "string");
             ("format", VStr "date-time");
             ("description", VStr "Optional due date for the check item (ISO 8601 format)") ]);
           ("idMember", VObj [
             ("type", VStr "string");
             ("description", VStr "Optional member ID to assign to this check item");
             ("pattern", VStr "^[a-f0-9]{24}$") ]) ]);
         ("required", VArr [VStr "apiKey"; VStr "token"; VStr "checklistId"; VStr "name"]) ] |}.

Definition trelloUpdateChecklistItemTool : Tool :=
  {| name := "trello_update_checklist_item";
     description := "Update a check item on a Trello card. Use this to mark items complete/incomplete, rename them, change their position, or move them to a different checklist.";
     inputSchema := VObj [
         ("type", VStr "object");
         ("properties", VObj [
           ("apiKey", VObj [
             ("type", VStr "string");
             ("description", VStr "Trello API key (automatically provided by Claude.app from your stored credentials)") ]);
           ("token", VObj [
             ("type", VStr "string");
             ("description", VStr "Trello API token (automatically provided by Claude.app from your stored credentials)") ]);
           ("cardId", VObj [
             ("type", VStr "string");
             ("description", VStr "ID of the card that owns the check item");
             ("pattern", VStr "^[a-f0-9]{24}$") ]);
           ("checkItemId", VObj [
             ("type", VStr "string");
             ("description", VStr "ID of the check item to update");
             ("pattern", VStr "^[a-f0-9]{24}$") ]);
           ("state", VObj [
             ("type", VStr "string");
             ("enum", VArr [VStr "complete"; VStr "incomplete"]);
             ("description", VStr ("Mark the item as " ++ dq ++ "complete" ++ dq ++ " or " ++ dq ++ "incomplete" ++ dq)) ]);
           ("name", VObj [
             ("type", VStr "string");
             ("description", VStr "New text/name for the check item") ]);
           ("pos", VObj [
             ("oneOf", VArr [
               VObj [
                 ("type", VStr "number");
                 ("minimum", VNum 0%Q) ];
               VObj [
                 ("type", VStr "string");
                 ("enum", VArr [VStr "top"; VStr "bottom"]) ] ]);
             ("description", VStr ("New position: " ++ dq ++ "top" ++ dq ++ ", " ++ dq ++ "bottom" ++ dq ++ ", or a positive number")) ]);
           ("due", VObj [
             ("type", VArr [VStr "string"; VStr "null"]);
             ("format", VStr "date-time");
             ("description", VStr "Set a due date (ISO 8601) or null to remove it") ]);
           ("idMember", VObj [
             ("type", VArr [VStr "string"; VStr "null"]);
             ("description", VStr "Assign a member by ID, or null to remove the assignment");
             ("pattern", VStr "^[a-f0-9]{24}$") ]);
           ("idChecklist", VObj [
             ("type", VStr "string");
             ("description", VStr "Move the check item to a different checklist by providing the target checklist ID");
             ("pattern", VStr "^[a-f0-9]{24}$") ]) ]);
         ("required", VArr [VStr "apiKey"; VStr "token"; VStr "cardId"; VStr "checkItemId"]) ] |}.

Definition trelloDeleteChecklistItemTool : Tool :=
  {| name := "trello_delete_checklist_item";
     description := "Permanently delete a check item from a Trello checklist.";
     inputSchema := VObj [
         ("type", VStr "object");
         ("properties", VObj [
           ("apiKey", VObj [
             ("type", VStr "string");
             ("description", VStr "Trello API key (automatically provided by Claude.app from your stored credentials)") ]);
           ("token", VObj [
             ("type", VStr "string");
             ("description", VStr "Trello API token (automatically provided by Claude.app from your stored credentials)") ]);
           ("checklistId", VObj [
             ("type", VStr "string");
             ("description", VStr "ID of the checklist that contains the item");
             ("pattern", VStr "^[a-f0-9]{24}$") ]);
           ("checkItemId", VObj [
             ("type", VStr "string");
             ("description", VStr "ID of the check item to delete");
             ("pattern", VStr "^[a-f0-9]{24}$") ]) ]);
         ("required", VArr [VStr "apiKey"; VStr "token"; VStr "checklistId"; VStr "checkItemId"]) ] |}.

Section Checklists.
Variable env : Env.

Definition handleTrelloCreateChecklist (args : Value) : M Envelope :=
  try_catch
    (v <- lift (validateCreateChecklist args) ;;
     let apiKey := prop "apiKey" v in
     let token := prop "token" v in
     let idCard := prop "idCard" v in
     let name := prop "name" v in
     let pos := prop "pos" v in
     let idChecklistSource := prop "idChecklistSource" v in
     let credentials := mkCredentials apiKey token in
     response <- await (client env) (createChecklist credentials
       ([("idCard", idCard)]
        ++ spread_if (defined name) "name" name
        ++ spread_if (defined pos) "pos" pos
        ++ spread_if (defined idChecklistSource) "idChecklistSource" idChecklistSource)%list) ;;
     checklist <- deref env (data response) "name" ;;
     name' <- ToString env (prop "name" checklist) ;;
     let result := VObj [
       ("summary", VStr ("Created checklist " ++ dq ++ name' ++ dq ++ " on card"));
       ("checklist", VObj [
          ("id", prop "id" checklist);
          ("name", prop "name" checklist);
          ("position", prop "pos" checklist);
          ("cardId", prop "idCard" checklist);
          ("boardId", prop "idBoard" checklist);
          ("checkItems", coalesce (prop "checkItems" checklist) (VArr [])) ]);
       ("rateLimit", rateLimit response) ] in
     ret (success env result))
    (catch_block env "Error creating checklist: ").

Definition handleTrelloGetChecklist (args : Value) : M Envelope :=
  try_catch
    (v <- lift (validateGetChecklist args) ;;
     let apiKey := prop "apiKey" v in
     let token := prop "token" v in
     let checklistId := prop "checklistId" v in
     let credentials := mkCredentials apiKey token in
     response <- await (client env) (getChecklist credentials checklistId) ;;
     checklist <- deref env (data response) "name" ;;
     name' <- ToString env (prop "name" checklist) ;;
     checkItems <- opt_array_map env "checklist.checkItems?.map" (prop "checkItems" checklist) (fun i =>
       item <- deref env i "id" ;;
       ret (VObj [
         ("id", prop "id" item);
         ("name", prop "name" item);
         ("state", prop "state" item);
         ("position", prop "pos" item);
         ("due", prop "due" item);
         ("idMember", prop "idMember" item) ])) ;;
     let result := VObj [
       ("summary", VStr ("Checklist: " ++ name'));
       ("checklist", VObj [
          ("id", prop "id" checklist);
          ("name", prop "name" checklist);
          ("position", prop "pos" checklist);
          ("cardId", prop "idCard" checklist);
          ("boardId", prop "idBoard" checklist);
          ("checkItems", coalesce checkItems (VArr [])) ]);
       ("rateLimit", rateLimit response) ] in
     ret (success env result))
    (catch_block env "Error getting checklist: ").

Definition handleTrelloUpdateChecklist (args : Value) : M Envelope :=
  try_catch
    (v <- lift (validateUpdateChecklist args) ;;
     let apiKey := prop "apiKey" v in
     let token := prop "token" v in
     let checklistId := prop "checklistId" v in
     let name := prop "name" v in
     let pos := prop "pos" v in
     let credentials := mkCredentials apiKey token in
     response <- await (client env) (updateChecklist credentials checklistId
       (spread_if (defined name) "name" name
        ++ spread_if (defined pos) "pos" pos)%list) ;;
     checklist <- deref env (data response) "name" ;;
     name' <- ToString env (prop "name" checklist) ;;
     let result := VObj [
       ("summary", VStr ("Updated checklist " ++ dq ++ name' ++ dq));
       ("checklist", VObj [
          ("id", prop "id" checklist);
          ("name", prop "name" checklist);
          ("position", prop "pos" checklist);
          ("cardId", prop "idCard" checklist);
          ("boardId", prop "idBoard" checklist) ]);
       ("rateLimit", rateLimit response) ] in
     ret (success env result))
    (catch_block env "Error updating checklist: ").

Definition handleTrelloDeleteChecklist (args : Value) : M Envelope :=
  try_catch
    (v <- lift (validateDeleteChecklist args) ;;
     let apiKey := prop "apiKey" v in
     let token := prop "token" v in
     let checklistId := prop "checklistId" v in
     let credentials := mkCredentials apiKey token in
     _ <- await (client env) (deleteChecklist credentials checklistId) ;;
     checklistId' <- ToString env checklistId ;;
     let result := VObj [
       ("summary", VStr ("Deleted checklist " ++ checklistId'));
       ("checklistId", checklistId);
       ("deleted", VBool true) ] in
     ret (success env result))
    (catch_block env "Error deleting checklist: ").

Definition handleTrelloCreateChecklistItem (args : Value) : M Envelope :=
  try_catch
    (v <- lift (validateCreateChecklistItem env args) ;;
     let apiKey := prop "apiKey" v in
     let token := prop "token" v in
     let checklistId := prop "checklistId" v in
     let name := prop "name" v in
     let pos := prop "pos" v in
     let checked := prop "checked" v in
     let due := prop "due" v in
     let idMember := prop "idMember" v in
     let credentials := mkCredentials apiKey token in
     response <- await (client env) (createChecklistItem credentials checklistId
       ([("name", name)]
        ++ spread_if (defined pos) "pos" pos
        ++ spread_if (defined checked) "checked" checked
        ++ spread_if (defined due) "due" due
        ++ spread_if (defined idMember) "idMember" idMember)%list) ;;
     item <- deref env (data response) "name" ;;
     name' <- ToString env (prop "name" item) ;;
     let result := VObj [
       ("summary", VStr ("Created check item " ++ dq ++ name' ++ dq));
       ("checkItem", VObj [
          ("id", prop "id" item);
          ("name", prop "name" item);
          ("state", prop "state" item);
          ("position", prop "pos" item);
          ("due", prop "due" item);
          ("idMember", prop "idMember" item);
          ("checklistId", prop "idChecklist" item) ]);
       ("rateLimit", rateLimit response) ] in
     ret (success env result))
    (catch_block env "Error creating check item: ").

Definition handleTrelloUpdateChecklistItem (args : Value) : M Envelope :=
  try_catch
    (v <- lift (validateUpdateChecklistItem env args) ;;
     let apiKey := prop "apiKey" v in
     let token := prop "token" v in
     let cardId := prop "cardId" v in
     let checkItemId := prop "checkItemId" v in
     let state := prop "state" v in
     let name := prop "name" v in
     let pos := prop "pos" v in
     let due := prop "due" v in
     let idMember := prop "idMember" v in
     let idChecklist := prop "idChecklist" v in
     let credentials := mkCredentials apiKey token in
     response <- await (client env) (updateChecklistItem credentials cardId checkItemId
       (spread_if (defined state) "state" state
        ++ spread_if (defined name) "name" name
        ++ spread_if (defined pos) "pos" pos
        ++ spread_if (defined due) "due" due
        ++ spread_if (defined idMember) "idMember" idMember
        ++ spread_if (defined idChecklist) "idChecklist" idChecklist)%list) ;;
     item <- deref env (data response) "name" ;;
     name' <- ToString env (prop "name" item) ;;
     let result := VObj [
       ("summary", VStr ("Updated check item " ++ dq ++ name' ++ dq));
       ("checkItem", VObj [
          ("id", prop "id" item);
          ("name", prop "name" item);
          ("state", prop "state" item);
          ("position", prop "pos" item);
          ("due", prop "due" item);
          ("idMember", prop "idMember" item);
          ("checklistId", prop "idChecklist" item);
          ("cardId", prop "idCard" item) ]);
       ("rateLimit", rateLimit response) ] in
     ret (success env result))
    (catch_block env "Error updating check item: ").

Definition handleTrelloDeleteChecklistItem (args : Value) : M Envelope :=
  try_catch
    (v <- lift (validateDeleteChecklistItem args) ;;
     let apiKey := prop "apiKey" v in
     let token := prop "token" v in
     let checklistId := prop "checklistId" v in
     let checkItemId := prop "checkItemId" v in
     let credentials := mkCredentials apiKey token in
     _ <- await (client env) (deleteChecklistItem credentials checklistId checkItemId) ;;
     checkItemId' <- ToString env checkItemId ;;
     checklistId' <- ToString env checklistId ;;
     let result := VObj [
       ("summary", VStr ("Deleted check item " ++ checkItemId' ++ " from checklist " ++ checklistId'));
       ("checklistId", checklistId);
       ("checkItemId", checkItemId);
       ("deleted", VBool true) ] in
     ret (success env result))
    (catch_block env "Error deleting check item: ").

End Checklists.

(* ================================================================== *)
(** * src/server.ts *)
(* ================================================================== *)

(** The handlers defined in [boards.ts] and [checklists.ts]. *)
Inductive LocalTool : Type :=
| CreateBoard | ListBoards | GetBoardDetails | GetLists
| CreateChecklist | GetChecklist | UpdateChecklist | DeleteChecklist
| CreateChecklistItem | UpdateChecklistItem | DeleteChecklistItem.

(** A handler function imported by [server.ts]. *)
Inductive HandlerRef : Type :=
| Local (t : LocalTool)
| Other (t : OtherTool).

(** The [case] labels of the [CallToolRequestSchema] handler, in the
    order of the [switch], each with the handler it returns from. *)
Definition cases : list (string * HandlerRef) := [
  (* Phase 1: Essential tools *)
  ("trello_search", Other trelloSearch);
  ("trello_get_user_boards", Other trelloGetUserBoards);
  ("trello_create_board", Local CreateBoard);
  ("get_board_details", Local GetBoardDetails);
  ("get_card", Other getCard);
  ("create_card", Other createCard);
  (* Phase 2: Core operations *)
  ("update_card", Other updateCard);
  ("move_card", Other moveCard);
  ("trello_add_comment", Other trelloAddComment);
  ("trello_get_list_cards", Other trelloGetListCards);
  ("trello_create_list", Other trelloCreateList);
  (* Original tools (maintained for compatibility) *)
  ("list_boards", Local ListBoards);
  ("get_lists", Local GetLists);
  (* Member management *)
  ("trello_get_member", Other trelloGetMember);
  (* Phase 3: Advanced features *)
  ("trello_get_board_cards", Other trelloGetBoardCards);
  ("trello_get_card_actions", Other trelloGetCardActions);
  ("trello_get_card_attachments", Other trelloGetCardAttachments);
  ("trello_get_card_checklists", Other trelloGetCardChecklists);
  ("trello_get_board_members", Other trelloGetBoardMembers);
  ("trello_get_board_labels", Other trelloGetBoardLabels);
  (* Checklist management *)
  ("trello_create_checklist", Local CreateChecklist);
  ("trello_get_checklist", Local GetChecklist);
  ("trello_update_checklist", Local UpdateChecklist);
  ("trello_delete_checklist", Local DeleteChecklist);
  ("trello_create_checklist_item", Local CreateChecklistItem);
  ("trello_update_checklist_item", Local UpdateChecklistItem);
  ("trello_delete_checklist_item", Local DeleteChecklistItem)
].

(** [switch (name)]: the first [case] whose label is strictly equal to
    [name]; [None] is the [default] branch. *)
Fixpoint select (name : string) (cs : list (string * HandlerRef)) : option HandlerRef :=
  match cs with
  | [] => None
  | (label, h) :: rest => if String.eqb name label then Some h else select name rest
  end.

Definition registry : list string := map fst cases.

Section Server.
Variable env : Env.

Definition local_handle (t : LocalTool) : Value -> M Envelope :=
  match t with
  | CreateBoard => handleCreateBoard env
  | ListBoards => handleListBoards env
  | GetBoardDetails => handleGetBoardDetails env
  | GetLists => handleGetLists env
  | CreateChecklist => handleTrelloCreateChecklist env
  | GetChecklist => handleTrelloGetChecklist env
  | UpdateChecklist => handleTrelloUpdateChecklist env
  | DeleteChecklist => handleTrelloDeleteChecklist env
  | CreateChecklistItem => handleTrelloCreateChecklistItem env
  | UpdateChecklistItem => handleTrelloUpdateChecklistItem env
  | DeleteChecklistItem => handleTrelloDeleteChecklistItem env
  end.

Definition handle (h : HandlerRef) : Value -> M Envelope :=
  match h with
  | Local t => local_handle t
  | Other t => other_handle env t
  end.

(** The [ListToolsRequestSchema] handler's [tools] array. *)
Definition listTools : list Tool := [
  (* Phase 1: Essential tools *)
  other_tool env trelloSearch;
  other_tool env trelloGetUserBoards;
  getBoardDetailsTool;
  other_tool env getCard;
  other_tool env createCard;
  (* Phase 2: Core operations *)
  other_tool env updateCard;
  other_tool env moveCard;
  other_tool env trelloAddComment;
  other_tool env trelloGetListCards;
  other_tool env trelloCreateList;
  createBoardTool;
  (* Original tools (maintained for compatibility) *)
  listBoardsTool;
  getListsTool;
  (* Member management *)
  other_tool env trelloGetMember;
  (* Phase 3: Advanced features *)
  other_tool env trelloGetBoardCards;
  other_tool env trelloGetCardActions;
  other_tool env trelloGetCardAttachments;
  other_tool env trelloGetCardChecklists;
  other_tool env trelloGetBoardMembers;
  other_tool env trelloGetBoardLabels;
  (* Checklist management *)
  trelloCreateChecklistTool;
  trelloGetChecklistTool;
  trelloUpdateChecklistTool;
  trelloDeleteChecklistTool;
  trelloCreateChecklistItemTool;
  trelloUpdateChecklistItemTool;
  trelloDeleteChecklistItemTool
].

(** The [CallToolRequestSchema] handler, on [request.params]. *)
Definition callTool (name : string) (args : Value) : M Envelope :=
  match select name cases with
  | Some h => handle h args
  | None => throw (ThrowError ("Unknown tool: " ++ name))
  end.

End Server.

(* ================================================================== *)
(** * Vocabulary of the properties *)
(* ================================================================== *)

(** The validator a handler calls first. *)
Definition validate (env : Env) (t : LocalTool) : Value -> Completion Obj :=
  match t with
  | CreateBoard => validateCreateBoard
  | ListBoards => validateListBoards env
  | GetBoardDetails => validateGetBoard env
  | GetLists => validateGetBoardLists env
  | CreateChecklist => validateCreateChecklist
  | GetChecklist => validateGetChecklist
  | UpdateChecklist => validateUpdateChecklist
  | DeleteChecklist => validateDeleteChecklist
  | CreateChecklistItem => validateCreateChecklistItem env
  | UpdateChecklistItem => validateUpdateChecklistItem env
  | DeleteChecklistItem => validateDeleteChecklistItem
  end.

(** Its schema, when the validator is defined in the tool file itself
    (the other three come from [utils/validation.ts]). *)
Definition schema_of (env : Env) (t : LocalTool) : option Shape :=
  match t with
  | CreateBoard => Some validateCreateBoard_schema
  | ListBoards | GetBoardDetails | GetLists => None
  | CreateChecklist => Some validateCreateChecklist_schema
  | GetChecklist => Some validateGetChecklist_schema
  | UpdateChecklist => Some validateUpdateChecklist_schema
  | DeleteChecklist => Some validateDeleteChecklist_schema
  | CreateChecklistItem => Some (validateCreateChecklistItem_schema env)
  | UpdateChecklistItem => Some (validateUpdateChecklistItem_schema env)
  | DeleteChecklistItem => Some validateDeleteChecklistItem_schema
  end.

(** The type a schema gives a key. *)
Fixpoint field_type (k : string) (shape : Shape) : option ZType :=
  match shape with
  | [] => None
  | (k', t) :: rest => if String.eqb k k' then Some t else field_type k rest
  end.

(** Whether the schema of [t] accepts [x] as the value of key [k]. *)
Definition field_accepts (env : Env) (t : LocalTool) (k : string) (x : Value) : bool :=
  match schema_of env t with
  | Some shape =>
      match field_type k shape with
      | Some ty => is_valid (parse ty [k] x)
      | None => false
      end
  | None => false
  end.

(** What the error text of a handler says it was doing. *)
Definition doing (t : LocalTool) : string :=
  match t with
  | CreateBoard => "creating board"
  | ListBoards => "listing boards"
  | GetBoardDetails => "getting board details"
  | GetLists => "getting lists"
  | CreateChecklist => "creating checklist"
  | GetChecklist => "getting checklist"
  | UpdateChecklist => "updating checklist"
  | DeleteChecklist => "deleting checklist"
  | CreateChecklistItem => "creating check item"
  | UpdateChecklistItem => "updating check item"
  | DeleteChecklistItem => "deleting check item"
  end.

(** The error envelope for a fault [error] in the handler of [t]. *)
Definition failure (env : Env) (t : LocalTool) (error : Thrown) : Envelope :=
  {| content := [ {| type := "text";
                     text := "Error " ++ doing t ++ ": " ++ errorMessage env error |} ];
     isError := Some true |}.

(** A success envelope: no [isError], one text item that serializes an
    object with a string [summary]. *)
Definition is_success (env : Env) (e : Envelope) : Prop :=
  isError e = None /\
  exists fields s,
    content e = [ {| type := "text"; text := JSON_stringify env (VObj fields) |} ] /\
    prop "summary" fields = VStr s.

(** The object a client call carries as request payload, if any. *)
Definition payload_of (c : ClientCall) : option Obj :=
  match c with
  | createBoard _ p => Some p
  | createChecklist _ p => Some p
  | updateChecklist _ _ p => Some p
  | createChecklistItem _ _ p => Some p
  | updateChecklistItem _ _ _ p => Some p
  | _ => None
  end.

(** The shape [TrelloApiResponse<T>] promises for the [data] of each
    client method, as far as the handlers depend on it: an entity is an
    object whose [name] can be printed in the summary, a listing is an
    array of objects, and an embedded listing is such an array or
    absent. *)
Definition is_object (d : Value) : bool :=
  match d with VObj _ => true | _ => false end.

Definition array_of (elem : Value -> bool) (d : Value) : bool :=
  match d with VArr items => forallb elem items | _ => false end.

Definition optional_ (shape : Value -> bool) (d : Value) : bool :=
  match d with VUndefined => true | _ => shape d end.

Definition card_typed (d : Value) : bool :=
  match d with
  | VObj ps => optional_ (array_of is_object) (prop "labels" ps)
  | _ => false
  end.

Definition entity (d : Value) : bool :=
  match d with
  | VObj ps => convertible (prop "name" ps)
  | _ => false
  end.

Definition well_typed (t : LocalTool) (d : Value) : bool :=
  match t with
  | ListBoards | GetLists => array_of is_object d
  | GetBoardDetails =>
      match d with
      | VObj ps => convertible (prop "name" ps)
                   && optional_ (array_of is_object) (prop "lists" ps)
                   && optional_ (array_of card_typed) (prop "cards" ps)
      | _ => false
      end
  | GetChecklist =>
      match d with
      | VObj ps => convertible (prop "name" ps)
                   && optional_ (array_of is_object) (prop "checkItems" ps)
      | _ => false
      end
  | DeleteChecklist | DeleteChecklistItem => true
  | _ => entity d
  end.

(** What a handler prints of its validated arguments.  The two
    listings print the [filter] that a validator of
    [utils/validation.ts] returned; the deletions print identifiers
    that their own schemas have checked; the others print none. *)
Definition printable_arguments (t : LocalTool) (v : Obj) : bool :=
  match t with
  | ListBoards | GetLists => convertible (prop "filter" v)
  | _ => true
  end.

(** The validated object [z.object(shape).parse] returns for [data]. *)
Definition project (shape : Shape) (data : Obj) : Obj :=
  flat_map (fun kt : string * ZType =>
              let x := prop (fst kt) data in
              if defined x || has_own (fst kt) data then [(fst kt, x)] else [])
           shape.

(** Whether every key of the shape accepts what [data] holds for it. *)
Definition all_valid (shape : Shape) (data : Obj) : bool :=
  forallb (fun kt : string * ZType =>
             is_valid (parse (snd kt) [fst kt] (prop (fst kt) data)))
          shape.

(** Whether a computation made no client call. *)
Definition silent {A} (m : M A) : Prop := fst m = [].

(** [...(a !== undefined && { a }), ...(b !== undefined && { b }), ...]
    over the keys [ks] of the validated object [v]. *)
Definition collect (ks : list string) (v : Obj) : Obj :=
  flat_map (fun k => spread_if (defined (prop k v)) k (prop k v)) ks.

(** The client call a handler makes once validation has returned [v]. *)
Definition request (t : LocalTool) (v : Obj) : ClientCall :=
  let credentials := mkCredentials (prop "apiKey" v) (prop "token" v) in
  match t with
  | CreateBoard =>
      createBoard credentials
        ([("name", prop "name" v)]
         ++ collect ["desc"; "idOrganization"; "defaultLabels"; "defaultLists";
                     "prefs_permissionLevel"; "prefs_background"] v)%list
  | ListBoards => getMyBoards credentials (prop "filter" v)
  | GetBoardDetails => getBoard credentials (prop "boardId" v) (prop "includeDetails" v)
  | GetLists => getBoardLists credentials (prop "boardId" v) (prop "filter" v)
  | CreateChecklist =>
      createChecklist credentials
        ([("idCard", prop "idCard" v)]
         ++ collect ["name"; "pos"; "idChecklistSource"] v)%list
  | GetChecklist => getChecklist credentials (prop "checklistId" v)
  | UpdateChecklist =>
      updateChecklist credentials (prop "checklistId" v) (collect ["name"; "pos"] v)
  | DeleteChecklist => deleteChecklist credentials (prop "checklistId" v)
  | CreateChecklistItem =>
      createChecklistItem credentials (prop "checklistId" v)
        ([("name", prop "name" v)]
         ++ collect ["pos"; "checked"; "due"; "idMember"] v)%list
  | UpdateChecklistItem =>
      updateChecklistItem credentials (prop "cardId" v) (prop "checkItemId" v)
        (collect ["state"; "name"; "pos"; "due"; "idMember"; "idChecklist"] v)
  | DeleteChecklistItem =>
      deleteChecklistItem credentials (prop "checklistId" v) (prop "checkItemId" v)
  end.

(** The descriptor exported next to each handler of the two tool files. *)
Definition local_tool (t : LocalTool) : Tool :=
  match t with
  | CreateBoard => createBoardTool
  | ListBoards => listBoardsTool
  | GetBoardDetails => getBoardDetailsTool
  | GetLists => getListsTool
  | CreateChecklist => trelloCreateChecklistTool
  | GetChecklist => trelloGetChecklistTool
  | UpdateChecklist => trelloUpdateChecklistTool
  | DeleteChecklist => trelloDeleteChecklistTool
  | CreateChecklistItem => trelloCreateChecklistItemTool
  | UpdateChecklistItem => trelloUpdateChecklistItemTool
  | DeleteChecklistItem => trelloDeleteChecklistItemTool
  end.

(** The keys a schema declares, and those it declares [.optional()]. *)
Definition declared_keys (env : Env) (t : LocalTool) : list string :=
  match schema_of env t with
  | Some shape => map fst shape
  | None => []
  end.

Definition is_optional (ty : ZType) : bool :=
  match ty with z_optional _ => true | _ => false end.

Definition optional_fields (env : Env) (t : LocalTool) : list string :=
  match schema_of env t with
  | Some shape => map fst (filter (fun kt : string * ZType => is_optional (snd kt)) shape)
  | None => []
  end.

(** The create- and update-style operations of the two tool files. *)
Definition write_style (t : LocalTool) : bool :=
  match t with
  | CreateBoard | CreateChecklist | UpdateChecklist
  | CreateChecklistItem | UpdateChecklistItem => true
  | _ => false
  end.

(** The required business fields such an operation puts in the payload
    object, and those it passes to the client method as arguments of
    their own; the credentials go to the client's constructor. *)
Definition payload_mandatory (t : LocalTool) : list string :=
  match t with
  | CreateBoard => ["name"]
  | CreateChecklist => ["idCard"]
  | CreateChecklistItem => ["name"]
  | _ => []
  end.

Definition positional_fields (t : LocalTool) : list string :=
  match t with
  | UpdateChecklist => ["checklistId"]
  | CreateChecklistItem => ["checklistId"]
  | UpdateChecklistItem => ["cardId"; "checkItemId"]
  | _ => []
  end.

Definition credentials_of (c : ClientCall) : Credentials :=
  match c with
  | createBoard cr _ | getMyBoards cr _ | getBoard cr _ _ | getBoardLists cr _ _
  | createChecklist cr _ | getChecklist cr _ | updateChecklist cr _ _
  | deleteChecklist cr _ | createChecklistItem cr _ _
  | updateChecklistItem cr _ _ _ | deleteChecklistItem cr _ _
  | otherCall _ cr _ => cr
  end.

Definition positional_of (c : ClientCall) : list Value :=
  match c with
  | updateChecklist _ id _ => [id]
  | createChecklistItem _ id _ => [id]
  | updateChecklistItem _ card item _ => [card; item]
  | _ => []
  end.

(** The identifier fields of the schemas defined in the tool files. *)
Definition id_fields (t : LocalTool) : list string :=
  match t with
  | CreateBoard => ["idOrganization"]
  | CreateChecklist => ["idCard"; "idChecklistSource"]
  | GetChecklist => ["checklistId"]
  | UpdateChecklist => ["checklistId"]
  | DeleteChecklist => ["checklistId"]
  | CreateChecklistItem => ["checklistId"; "idMember"]
  | UpdateChecklistItem => ["cardId"; "checkItemId"; "idMember"; "idChecklist"]
  | DeleteChecklistItem => ["checklistId"; "checkItemId"]
  | ListBoards | GetBoardDetails | GetLists => []
  end.

(** Whether the strings of a list are pairwise different. *)
Fixpoint distinct (l : list string) : bool :=
  match l with
  | [] => true
  | x :: rest => negb (existsb (String.eqb x) rest) && distinct rest
  end.


(** The operations whose schema has a [pos] key. *)
Definition position_tools : list LocalTool :=
  [CreateChecklist; UpdateChecklist; CreateChecklistItem; UpdateChecklistItem].

(** The free-text name and description fields with a length limit. *)
Definition free_text_fields : list (LocalTool * string) :=
  [ (CreateBoard, "name"); (CreateBoard, "desc");
    (CreateChecklist, "name"); (UpdateChecklist, "name");
    (CreateChecklistItem, "name"); (UpdateChecklistItem, "name") ].

(** The least length such a field accepts: the names carry [.min(1)],
    the board description does not. *)
Definition min_length (t : LocalTool) (k : string) : N :=
  match t with
  | CreateBoard => if String.eqb k "desc" then 0%N else 1%N
  | _ => 1%N
  end.

(** A simulated environment for concrete runs: the client resolves
    every call with the same entity, the only date-time accepted is one
    fixed instant, and the serializer prints the summary alone. *)
Definition demo_id : string := "5f1a2b3c4d5e6f7a8b9c0d1e".

Definition demo_env : Env :=
  {| JSON_stringify := fun v => match v with
                                | VObj ps => match prop "summary" ps with
                                             | VStr s => s
                                             | _ => ""
                                             end
                                | _ => ""
                                end;
     Number_toString := fun _ => "0";
     TypeError_message := fun _ k => "Cannot read properties of undefined";
     NotAFunction_message := fun callee _ => callee ++ " is not a function";
     ToPrimitive_message := fun _ => "Cannot convert object to primitive value";
     datetime_regex := fun s => String.eqb s "2026-01-01T00:00:00Z";
     formatValidationError := fun _ => "invalid arguments";
     validateListBoards := schema_parse [("apiKey", z_string []); ("token", z_string [])];
     validateGetBoard := schema_parse [("apiKey", z_string []); ("token", z_string [])];
     validateGetBoardLists := schema_parse [("apiKey", z_string []); ("token", z_string [])];
     client := fun _ => Normal {| data := VObj [("id", VStr demo_id); ("name", VStr "Demo")];
                                  rateLimit := VNull |};
     other_tool := fun _ => {| name := "other"; description := ""; inputSchema := VNull |};
     other_handle := fun _ _ => ret {| content := []; isError := None |} |}.

(** A copy of an environment with another client. *)
Definition with_client (env : Env) (c : TrelloClient) : Env :=
  {| JSON_stringify := JSON_stringify env;
     Number_toString := Number_toString env;
     TypeError_message := TypeError_message env;
     NotAFunction_message := NotAFunction_message env;
     ToPrimitive_message := ToPrimitive_message env;
     datetime_regex := datetime_regex env;
     formatValidationError := formatValidationError env;
     validateListBoards := validateListBoards env;
     validateGetBoard := validateGetBoard env;
     validateGetBoardLists := validateGetBoardLists env;
     client := c;
     other_tool := other_tool env;
     other_handle := other_handle env |}.

(* ================================================================== *)
(** * Basic facts *)
(* ================================================================== *)

Lemma prop_app (k : string) (a b : Obj) :
  prop k (a ++ b)%list = if has_own k a then prop k a else prop k b.
Proof.
  induction a as [|[k' v] a IH]; simpl; [reflexivity|].
  destruct (String.eqb k k'); simpl; [reflexivity|exact IH].
Qed.

Lemma has_own_app (k : string) (a b : Obj) :
  has_own k (a ++ b)%list = has_own k a || has_own k b.
Proof.
  induction a as [|[k' v] a IH]; simpl; [reflexivity|].
  rewrite IH. now rewrite orb_assoc.
Qed.

Lemma has_own_In (k : string) (o : Obj) :
  has_own k o = true <-> In k (keys o).
Proof.
  induction o as [|[k' v] o IH]; simpl.
  - split; [discriminate|tauto].
  - rewrite orb_true_iff, IH, String.eqb_eq. split; intros [H|H]; auto.
Qed.

Lemma has_own_false_prop (k : string) (o : Obj) :
  has_own k o = false -> prop k o = VUndefined.
Proof.
  induction o as [|[k' v] o IH]; simpl; [reflexivity|].
  destruct (String.eqb k k'); simpl; [discriminate|exact IH].
Qed.

(** Induction on schema types, through the options of a union. *)
Section ZType_induction.
Variable P : ZType -> Prop.
Hypothesis Hstring : forall checks, P (z_string checks).
Hypothesis Hnumber : forall checks, P (z_number checks).
Hypothesis Hboolean : P z_boolean.
Hypothesis Henum : forall values, P (z_enum values).
Hypothesis Hunion : forall options, Forall P options -> P (z_union options).
Hypothesis Hoptional : forall inner, P inner -> P (z_optional inner).
Hypothesis Hnullable : forall inner, P inner -> P (z_nullable inner).

Fixpoint ZType_nested_ind (t : ZType) : P t :=
  match t with
  | z_string checks => Hstring checks
  | z_number checks => Hnumber checks
  | z_boolean => Hboolean
  | z_enum values => Henum values
  | z_union options =>
      Hunion options
        ((fix all (l : list ZType) : Forall P l :=
            match l with
            | [] => Forall_nil P
            | o :: l' => Forall_cons o (ZType_nested_ind o) (all l')
            end) options)
  | z_optional inner => Hoptional inner (ZType_nested_ind inner)
  | z_nullable inner => Hnullable inner (ZType_nested_ind inner)
  end.
End ZType_induction.

(** A schema type never changes the value it accepts: no coercion, no
    default, no transform is used by the tools. *)
Lemma parse_keeps_value (t : ZType) :
  forall p v r, parse t p v = r ->
    match r with
    | OK v' => v' = v
    | DIRTY v' _ => v' = v
    | INVALID _ => True
    end.
Proof.
  induction t as [checks|checks| |values|options IH|inner IH|inner IH]
    using ZType_nested_ind; intros p v r <-; simpl.
  - destruct v; simpl; auto. unfold with_issues. now destruct (flat_map _ _).
  - destruct v; simpl; auto. unfold with_issues. now destruct (flat_map _ _).
  - destruct v; simpl; auto.
  - destruct v; simpl; auto. now destruct (existsb _ _).
  - assert (G : forall dirty,
               match dirty with
               | Some (OK v') | Some (DIRTY v' _) => v' = v
               | _ => True
               end ->
               match
                 (fix try_options (os : list ZType) (dirty : option (ParseReturn Value)) :=
                    match os with
                    | [] => match dirty with
                            | Some r => r
                            | None => INVALID [mkIssue invalid_union p None]
                            end
                    | o :: os' =>
                        match parse o p v with
                        | OK v' => OK v'
                        | DIRTY v' i =>
                            try_options os'
                              (match dirty with None => Some (DIRTY v' i) | Some d => Some d end)
                        | INVALID _ => try_options os' dirty
                        end
                    end) options dirty
               with
               | OK v' => v' = v
               | DIRTY v' _ => v' = v
               | INVALID _ => True
               end).
    { induction IH as [|o os Ho Hos IHos]; intros dirty Hd.
      - destruct dirty as [[| |]|]; auto.
      - specialize (Ho p v _ eq_refl).
        destruct (parse o p v) as [v'|v' i|i].
        + exact Ho.
        + apply IHos. destruct dirty as [[| |]|]; auto.
        + apply IHos. exact Hd. }
    apply G. exact I.
  - destruct v; simpl; auto; apply (IH p _ _ eq_refl).
  - destruct v; simpl; auto; apply (IH p _ _ eq_refl).
Qed.

Lemma parse_OK_value (t : ZType) (p : list string) (v v' : Value) :
  parse t p v = OK v' -> v' = v.
Proof. intros H. exact (parse_keeps_value t p v _ H). Qed.

Lemma is_valid_value_of (t : ZType) (p : list string) (v : Value) :
  is_valid (parse t p v) = true -> value_of (parse t p v) = v.
Proof.
  destruct (parse t p v) as [v'|v' i|i] eqn:E; simpl; try discriminate.
  intros _. exact (parse_OK_value _ _ _ _ E).
Qed.

(** ** Object schemas *)

Lemma pairs_valid (shape : Shape) (data : Obj) :
  forallb (fun kr : string * ParseReturn Value => is_valid (snd kr))
    (map (fun kt : string * ZType =>
            (fst kt, parse (snd kt) [fst kt] (prop (fst kt) data))) shape)
  = all_valid shape data.
Proof.
  unfold all_valid. induction shape as [|[k t] shape IH]; simpl; [reflexivity|].
  now rewrite IH.
Qed.

Lemma pairs_not_aborted (shape : Shape) (data : Obj) :
  all_valid shape data = true ->
  existsb (fun kr : string * ParseReturn Value => aborted (snd kr))
    (map (fun kt : string * ZType =>
            (fst kt, parse (snd kt) [fst kt] (prop (fst kt) data))) shape)
  = false.
Proof.
  unfold all_valid. induction shape as [|[k t] shape IH]; simpl; [reflexivity|].
  rewrite andb_true_iff. intros [Hk Hrest]. rewrite (IH Hrest), orb_false_r.
  now destruct (parse t [k] (prop k data)).
Qed.

Lemma pairs_final (shape : Shape) (data : Obj) :
  all_valid shape data = true ->
  flat_map (fun kr : string * ParseReturn Value =>
              let x := value_of (snd kr) in
              if defined x || has_own (fst kr) data then [(fst kr, x)] else [])
    (map (fun kt : string * ZType =>
            (fst kt, parse (snd kt) [fst kt] (prop (fst kt) data))) shape)
  = project shape data.
Proof.
  unfold all_valid, project. induction shape as [|[k t] shape IH]; simpl; [reflexivity|].
  rewrite andb_true_iff. intros [Hk Hrest]. rewrite (IH Hrest).
  now rewrite (is_valid_value_of _ _ _ Hk).
Qed.

(** [parse] returns the projection of [data] on the shape when every
    key is valid, and throws a [ZodError] otherwise. *)
Lemma schema_parse_valid (shape : Shape) (data : Obj) :
  all_valid shape data = true ->
  schema_parse shape (VObj data) = Normal (project shape data).
Proof.
  intros H. unfold schema_parse, parse_object.
  rewrite (pairs_not_aborted _ _ H), pairs_valid, H.
  f_equal. exact (pairs_final _ _ H).
Qed.

Lemma schema_parse_invalid (shape : Shape) (data : Obj) :
  all_valid shape data = false ->
  exists e, schema_parse shape (VObj data) = Abrupt (ThrowZod e).
Proof.
  intros H. unfold schema_parse, parse_object.
  rewrite pairs_valid, H.
  destruct (existsb _ _); eexists; reflexivity.
Qed.

Lemma schema_parse_non_object (shape : Shape) (args : Value) :
  is_object args = false ->
  schema_parse shape args = Abrupt (ThrowZod [mkIssue invalid_type [] None]).
Proof. destruct args; simpl; try discriminate; reflexivity. Qed.

Lemma schema_parse_Normal (shape : Shape) (args : Value) (v : Obj) :
  schema_parse shape args = Normal v ->
  exists data, args = VObj data /\ all_valid shape data = true /\ v = project shape data.
Proof.
  intros H. destruct args as [| | | | | |data];
    try (rewrite schema_parse_non_object in H by reflexivity; discriminate).
  exists data. destruct (all_valid shape data) eqn:E.
  - rewrite (schema_parse_valid _ _ E) in H. injection H as <-. auto.
  - destruct (schema_parse_invalid _ _ E) as [e He]. congruence.
Qed.

Lemma schema_parse_Abrupt (shape : Shape) (args : Value) (th : Thrown) :
  schema_parse shape args = Abrupt th -> exists e, th = ThrowZod e.
Proof.
  unfold schema_parse. destruct (parse_object shape args); intros H;
    try discriminate; injection H as <-; eexists; reflexivity.
Qed.

(** Reading a key of the validated object. *)
Lemma prop_project (shape : Shape) (data : Obj) (k : string) :
  prop k (project shape data) =
  if existsb (String.eqb k) (map fst shape) then prop k data else VUndefined.
Proof.
  unfold project. induction shape as [|[k' t] shape IH]; simpl; [reflexivity|].
  rewrite prop_app, IH. destruct (String.eqb k k') eqn:E; simpl.
  - apply String.eqb_eq in E. subst k'.
    destruct (defined (prop k data) || has_own k data) eqn:D; simpl.
    + now rewrite String.eqb_refl.
    + apply orb_false_iff in D. destruct D as [D _].
      destruct (prop k data); try discriminate. now destruct (existsb _ _).
  - destruct (defined (prop k' data) || has_own k' data); simpl; [|reflexivity].
    now rewrite E.
Qed.

Lemma has_own_project (shape : Shape) (data : Obj) (k : string) :
  has_own k (project shape data) = true -> In k (map fst shape).
Proof.
  unfold project. induction shape as [|[k' t] shape IH]; simpl; [discriminate|].
  rewrite has_own_app, orb_true_iff. intros [H|H]; [|right; exact (IH H)].
  destruct (defined (prop k' data) || has_own k' data); simpl in H; [|discriminate].
  rewrite orb_false_r in H. apply String.eqb_eq in H. now left.
Qed.

(** Keys outside the shape play no part in validation. *)
Lemma parse_object_agree (shape : Shape) (d d' : Obj) :
  (forall k, In k (map fst shape) -> prop k d = prop k d' /\ has_own k d = has_own k d') ->
  parse_object shape (VObj d) = parse_object shape (VObj d').
Proof.
  intros H. unfold parse_object. cbv zeta.
  assert (E : map (fun kt : string * ZType =>
                     (fst kt, parse (snd kt) [fst kt] (prop (fst kt) d))) shape
            = map (fun kt : string * ZType =>
                     (fst kt, parse (snd kt) [fst kt] (prop (fst kt) d'))) shape).
  { apply map_ext_in. intros [k t] Hin. simpl.
    destruct (H k) as [-> _]; [|reflexivity].
    apply in_map_iff. exists (k, t). auto. }
  rewrite E.
  assert (F : forall pairs : list (string * ParseReturn Value),
            incl (map fst pairs) (map fst shape) ->
            flat_map (fun kr : string * ParseReturn Value =>
                if defined (value_of (snd kr)) || has_own (fst kr) d
                then [(fst kr, value_of (snd kr))] else []) pairs
            = flat_map (fun kr : string * ParseReturn Value =>
                if defined (value_of (snd kr)) || has_own (fst kr) d'
                then [(fst kr, value_of (snd kr))] else []) pairs).
  { induction pairs as [|[k r] pairs IH]; intros Hincl; simpl; [reflexivity|].
    rewrite IH by (intros k0 Hk0; apply Hincl; simpl; auto).
    destruct (H k) as [_ ->]; [apply Hincl; simpl; auto|reflexivity]. }
  rewrite F; [reflexivity|].
  rewrite map_map. simpl. apply incl_refl.
Qed.

Lemma schema_parse_agree (shape : Shape) (d d' : Obj) :
  (forall k, In k (map fst shape) -> prop k d = prop k d' /\ has_own k d = has_own k d') ->
  schema_parse shape (VObj d) = schema_parse shape (VObj d').
Proof. intros H. unfold schema_parse. now rewrite (parse_object_agree _ _ _ H). Qed.

(** ** Computations *)

Lemma bind_Normal {A B} (m : M A) (k : A -> M B) (l : list ClientCall) (b : B) :
  bind m k = (l, Normal b) ->
  exists l1 a l2, m = (l1, Normal a) /\ k a = (l2, Normal b) /\ l = (l1 ++ l2)%list.
Proof.
  destruct m as [l1 [a|th]]; simpl; [|discriminate].
  destruct (k a) as [l2 r] eqn:E. intros H. injection H as <- ->.
  exists l1, a, l2. auto.
Qed.

Lemma silent_ret {A} (a : A) : silent (ret a).
Proof. reflexivity. Qed.

Lemma silent_throw {A} (th : Thrown) : silent (@throw A th).
Proof. reflexivity. Qed.

Lemma silent_lift {A} (c : Completion A) : silent (lift c).
Proof. reflexivity. Qed.

Lemma silent_bind {A B} (m : M A) (k : A -> M B) :
  silent m -> (forall a, silent (k a)) -> silent (bind m k).
Proof.
  unfold silent. destruct m as [l [a|th]]; simpl; intros -> Hk; [|reflexivity].
  specialize (Hk a). destruct (k a) as [l' r]. simpl in *. now subst.
Qed.

Lemma silent_deref (env : Env) (v : Value) (k : string) : silent (deref env v k).
Proof. now destruct v. Qed.

Lemma silent_length_of (env : Env) (v : Value) : silent (length_of env v).
Proof. now destruct v. Qed.

Lemma silent_ToString (env : Env) (v : Value) : silent (ToString env v).
Proof. unfold ToString. now destruct (convertible v). Qed.

Lemma ToString_Normal (env : Env) (v : Value) (l : list ClientCall) (s : string) :
  ToString env v = (l, Normal s) -> convertible v = true /\ s = String_ env v.
Proof.
  unfold ToString. destruct (convertible v); [|discriminate].
  intros [= _ <-]. auto.
Qed.

Lemma ToString_convertible (env : Env) (v : Value) :
  convertible v = true -> ToString env v = ([], Normal (String_ env v)).
Proof. unfold ToString. now intros ->. Qed.

Lemma silent_traverse (f : Value -> M Value) (items : list Value) :
  (forall x, silent (f x)) -> silent (traverse f items).
Proof.
  intros Hf. induction items as [|x items IH]; simpl; [reflexivity|].
  apply silent_bind; [apply Hf|]. intros y.
  apply silent_bind; [exact IH|]. intros ys. reflexivity.
Qed.

Lemma silent_array_map (env : Env) (callee : string) (v : Value) (f : Value -> M Value) :
  (forall x, silent (f x)) -> silent (array_map env callee v f).
Proof.
  intros Hf. destruct v; try reflexivity. simpl.
  apply silent_bind; [now apply silent_traverse|]. intros ys. reflexivity.
Qed.

Lemma silent_opt_array_map (env : Env) (callee : string) (v : Value) (f : Value -> M Value) :
  (forall x, silent (f x)) -> silent (opt_array_map env callee v f).
Proof.
  intros Hf. unfold opt_array_map. destruct (nullish v); [reflexivity|].
  now apply silent_array_map.
Qed.

Lemma silent_if {A} (c : bool) (m1 m2 : M A) :
  silent m1 -> silent m2 -> silent (if c then m1 else m2).
Proof. now destruct c. Qed.

Create HintDb silent.

#[local] Hint Resolve silent_ret silent_throw silent_lift silent_deref
  silent_length_of silent_ToString : silent.

Ltac silence :=
  repeat first
    [ progress intros
    | progress cbv beta
    | apply silent_bind
    | apply silent_if
    | apply silent_opt_array_map
    | apply silent_array_map
    | solve [auto with silent] ].

(** Mapping over an array of objects completes normally. *)
Lemma traverse_objects (f : Value -> M Value) (items : list Value) (elem : Value -> bool) :
  (forall x, elem x = true -> exists y, f x = ([], Normal y)) ->
  forallb elem items = true ->
  exists ys, traverse f items = ([], Normal ys).
Proof.
  intros Hf. induction items as [|x items IH]; simpl.
  - intros _. eexists. reflexivity.
  - rewrite andb_true_iff. intros [Hx Hrest].
    destruct (Hf x Hx) as [y ->]. destruct (IH Hrest) as [ys ->].
    eexists. reflexivity.
Qed.

Lemma array_map_objects (env : Env) (callee : string) (f : Value -> M Value) (d : Value)
    (elem : Value -> bool) :
  (forall x, elem x = true -> exists y, f x = ([], Normal y)) ->
  array_of elem d = true ->
  exists ys, array_map env callee d f = ([], Normal (VArr ys)).
Proof.
  intros Hf. destruct d; simpl; try discriminate. intros H.
  destruct (traverse_objects f items elem Hf H) as [ys ->].
  eexists. reflexivity.
Qed.

Lemma opt_array_map_objects (env : Env) (callee : string) (f : Value -> M Value) (d : Value)
    (elem : Value -> bool) :
  (forall x, elem x = true -> exists y, f x = ([], Normal y)) ->
  optional_ (array_of elem) d = true ->
  exists y, opt_array_map env callee d f = ([], Normal y).
Proof.
  intros Hf H. unfold opt_array_map. destruct (nullish d) eqn:N.
  - eexists. reflexivity.
  - destruct d; try discriminate.
    destruct (array_map_objects env callee f (VArr items) elem Hf H) as [ys E].
    eexists. exact E.
Qed.

(** The envelope a [catch] block with text prefix [prefix] produces. *)
Lemma try_catch_block (env : Env) (prefix : string) (body : M Envelope) :
  try_catch body (catch_block env prefix) =
  match body with
  | (l, Normal e) => (l, Normal e)
  | (l, Abrupt error) =>
      (l, Normal {| content := [ {| type := "text"; text := prefix ++ errorMessage env error |} ];
                    isError := Some true |})
  end.
Proof. destruct body as [l [e|error]]; simpl; [reflexivity|]. now rewrite app_nil_r. Qed.

(** Every handler is an instance of one pipeline: validate, call the
    client once, project the response without further calls. *)
Lemma pipeline (env : Env) (prefix : string) (c : Completion Obj)
    (req : Obj -> ClientCall) (k : Obj -> TrelloApiResponse -> M Envelope) :
  (forall v r, silent (k v r)) ->
  (forall v r l e, k v r = (l, Normal e) -> is_success env e) ->
  exists log e,
    try_catch (v <- lift c ;; r <- await (client env) (req v) ;; k v r)
              (catch_block env prefix) = (log, Normal e) /\
    (is_success env e \/
     exists error, e = {| content := [ {| type := "text"; text := prefix ++ errorMessage env error |} ];
                          isError := Some true |}) /\
    (forall error, c = Abrupt error ->
       log = [] /\
       e = {| content := [ {| type := "text"; text := prefix ++ errorMessage env error |} ];
              isError := Some true |}) /\
    (forall v, c = Normal v -> log = [req v]) /\
    (forall call error, In call log -> client env call = Abrupt error ->
       e = {| content := [ {| type := "text"; text := prefix ++ errorMessage env error |} ];
              isError := Some true |}) /\
    (forall v call r, c = Normal v -> In call log -> client env call = Normal r ->
       (exists e', k v r = ([], Normal e')) -> is_success env e).
Proof.
  intros Hsilent Hsuccess. rewrite try_catch_block.
  destruct c as [v|error]; simpl.
  - destruct (client env (req v)) as [r|error] eqn:Hcall; simpl.
    + pose proof (Hsilent v r) as Hs. unfold silent in Hs.
      destruct (k v r) as [l [e|error]] eqn:Hk; simpl in Hs; subst l; simpl.
      * pose proof (Hsuccess _ _ _ _ Hk) as He.
        exists [req v], e. split; [reflexivity|]. split; [now left|].
        split; [discriminate|]. split; [now intros v' [= <-]|].
        split; [|auto].
        intros call error [<-|[]] Hc. congruence.
      * eexists [req v], _. split; [reflexivity|]. split; [right; eexists; reflexivity|].
        split; [discriminate|]. split; [now intros v' [= <-]|]. split.
        -- intros call error' [<-|[]] Hc. congruence.
        -- intros v' call r' [= <-] [<-|[]] Hc [e' He']. congruence.
    + eexists [req v], _. split; [reflexivity|]. split; [right; eexists; reflexivity|].
      split; [discriminate|]. split; [now intros v' [= <-]|]. split.
      * intros call error' [<-|[]] Hc. congruence.
      * intros v' call r' Hv [<-|[]] Hc. congruence.
  - eexists [], _. split; [reflexivity|]. split; [right; eexists; reflexivity|].
    split; [intros error' [= <-]; auto|]. split; [discriminate|]. split.
    + intros call error' [].
    + discriminate.
Qed.

Lemma bind_normal_step {A B} (m : M A) (k : A -> M B) (a : A) :
  m = ([], Normal a) -> (exists b, k a = ([], Normal b)) ->
  exists b, bind m k = ([], Normal b).
Proof. intros -> [b Hb]. exists b. simpl. now rewrite Hb. Qed.

Lemma array_map_normal (env : Env) (callee : string) (f : Value -> M Value) (d : Value)
    (elem : Value -> bool) :
  (forall x, elem x = true -> exists y, f x = ([], Normal y)) ->
  array_of elem d = true ->
  exists y, array_map env callee d f = ([], Normal y).
Proof.
  intros Hf H. destruct (array_map_objects env callee f d elem Hf H) as [ys E]. eauto.
Qed.

Lemma all_valid_field (shape : Shape) (data : Obj) (k : string) (ty : ZType) :
  all_valid shape data = true ->
  field_type k shape = Some ty ->
  is_valid (parse ty [k] (prop k data)) = true.
Proof.
  unfold all_valid. induction shape as [|[k' ty'] shape IH]; simpl; [discriminate|].
  rewrite andb_true_iff. intros [Hk Hrest]. destruct (String.eqb k k') eqn:E.
  - apply String.eqb_eq in E. subst k'. now intros [= <-].
  - now apply IH.
Qed.

Lemma trelloId_string (p : list string) (x : Value) :
  is_valid (parse trelloId p x) = true ->
  exists s, x = VStr s /\ trello_id_regex s = true.
Proof.
  destruct x; simpl; try discriminate. intros H. exists s. split; [reflexivity|].
  now destruct (trello_id_regex s).
Qed.

(** An identifier that passed validation is a string. *)
Lemma validated_id_string (shape : Shape) (args : Value) (v : Obj) (k : string) :
  schema_parse shape args = Normal v ->
  field_type k shape = Some trelloId ->
  exists s, prop k v = VStr s.
Proof.
  intros Hv Hk. destruct (schema_parse_Normal _ _ _ Hv) as (data & -> & Hall & ->).
  destruct (trelloId_string _ _ (all_valid_field _ _ k _ Hall Hk)) as (s & Hs & _).
  exists s. rewrite prop_project, Hs.
  destruct (existsb (String.eqb k) (map fst shape)) eqn:E; [reflexivity|].
  exfalso. clear - Hk E. induction shape as [|[k' ty] shape IH]; simpl in *; [discriminate|].
  destruct (String.eqb k k'); [discriminate|auto].
Qed.

(** Peels the binds of a computation known to complete normally. *)
Ltac invert_binds H :=
  repeat (apply bind_Normal in H;
          let l1 := fresh "l" in let a := fresh "a" in let l2 := fresh "l" in
          let Hm := fresh "Hm" in let Hl := fresh "Hl" in
          destruct H as (l1 & a & l2 & Hm & H & Hl)).

(** The last step of every [try] block returns a success envelope. *)
Ltac success_form :=
  let v := fresh "v" in let r := fresh "r" in let l := fresh "l" in
  let e := fresh "e" in let H := fresh "H" in
  intros v r l e H; invert_binds H;
  injection H as _ <-;
  split; [reflexivity | eexists _, _; split; reflexivity].

(** On a response of the promised shape the projection of a handler
    completes normally, step by step. *)
Ltac normal_chain :=
  repeat match goal with
  | H : (_ && _) = true |- _ => apply andb_true_iff in H; destruct H
  | |- exists b, ret _ = ([], Normal b) => eexists; reflexivity
  | |- exists b, (if ?c then _ else _) = ([], Normal b) => destruct c
  | H : array_of ?elem ?d = true |- exists b, array_map ?env ?c ?d ?f = _ =>
      apply (array_map_normal env c f d elem); [ normal_callback | exact H ]
  | H : optional_ (array_of ?elem) ?d = true |- exists b, opt_array_map ?env ?c ?d ?f = _ =>
      apply (opt_array_map_objects env c f d elem); [ normal_callback | exact H ]
  | H : convertible ?x = true |- exists b, ToString ?env ?x = _ =>
      exists (String_ env x); exact (ToString_convertible env x H)
  | |- exists b, ToString ?env (VNum ?q) = _ => eexists; reflexivity
  | |- exists b, ToString ?env (VStr ?s) = _ => eexists; reflexivity
  | |- exists b, length_of _ ?d = _ => destruct d; try discriminate; eexists; reflexivity
  | |- exists b, deref _ (VObj _) _ = _ => eexists; reflexivity
  | |- exists b, bind ?m ?k = ([], Normal b) =>
      let a := fresh "a" in let Ha := fresh "Ha" in
      assert (Ha : exists a, m = ([], Normal a));
      [ | destruct Ha as [a Ha]; apply (bind_normal_step m k a Ha); cbv beta;
          try (injection Ha as <-) ]
  end
with normal_callback :=
  let x := fresh "x" in let Hx := fresh "Hx" in
  intros x Hx; destruct x; try discriminate Hx; try unfold card_typed in Hx;
  normal_chain.

(** ** The eleven handlers, case by case *)

Lemma local_handle_cases (env : Env) (t : LocalTool) (args : Value) :
  exists log e,
    local_handle env t args = (log, Normal e) /\
    (is_success env e \/ exists error, e = failure env t error) /\
    (forall error, validate env t args = Abrupt error ->
       log = [] /\ e = failure env t error) /\
    (forall v, validate env t args = Normal v ->
       log = [request t v] /\
       (forall error, client env (request t v) = Abrupt error -> e = failure env t error) /\
       (forall r, client env (request t v) = Normal r ->
          printable_arguments t v = true ->
          well_typed t (data r) = true -> is_success env e)).
Proof.
  destruct t; unfold local_handle;
    match goal with |- context [?h env args] => unfold h end; cbv zeta;
    (edestruct (pipeline env) as (log & e & E & Hform & Hval & Hlog & Hrej & Hres); cycle 2;
     [ exists log, e; split; [exact E|]; split; [exact Hform|];
       split; [exact Hval|];
       intros v Hv; pose proof (Hlog v Hv) as L;
       match type of Hv with
       | validate _ ?T _ = _ =>
           assert (L' : log = [request T v])
             by (rewrite L; unfold request, collect; cbv zeta; simpl;
                 rewrite ?app_nil_r; reflexivity)
       end;
       clear L Hlog; rewrite L' in Hrej, Hres;
       split; [exact L'|]; split;
       [ intros error Hc; exact (Hrej _ error (or_introl eq_refl) Hc)
       | intros r Hc Hpr Hwt;
         apply (Hres v _ r Hv (or_introl eq_refl) Hc); clear - Hv Hpr Hwt;
         unfold well_typed, entity in Hwt; unfold printable_arguments in Hpr;
         unfold validate in Hv ]
     | silence
     | success_form ]).
  all: try (destruct (validated_id_string _ _ _ "checklistId" Hv eq_refl) as [cid Hcid];
            rewrite Hcid).
  all: try (destruct (validated_id_string _ _ _ "checkItemId" Hv eq_refl) as [iid Hiid];
            rewrite Hiid).
  all: clear Hv.
  all: try (destruct (data r); try discriminate Hwt; normal_chain).
  all: try normal_chain.
Qed.

(* ================================================================== *)
(** * The response envelope *)
(* ================================================================== *)

(** C2.  Every handler of [boards.ts] and [checklists.ts], on every
    raw argument value, completes normally with an envelope (no
    exception leaves it).  The envelope is either a success (no
    [isError], text serializing an object with a [summary]) or an error
    ([isError: true], text ["Error <doing>: <message>"]).  A validation
    failure gives the error form before any client call; a rejected
    client call gives the error form; a client call resolved with data
    of the promised shape, after arguments that can be printed, gives
    the success form. *)
Theorem handler_uniform_envelope (env : Env) (t : LocalTool) (args : Value) :
  exists log e,
    local_handle env t args = (log, Normal e) /\
    (is_success env e \/ exists error, e = failure env t error) /\
    (forall error, validate env t args = Abrupt error ->
       log = [] /\ e = failure env t error) /\
    (forall call error, In call log -> client env call = Abrupt error ->
       e = failure env t error) /\
    (forall v call r, validate env t args = Normal v ->
       In call log -> client env call = Normal r ->
       printable_arguments t v = true ->
       well_typed t (data r) = true -> is_success env e).
Proof.
  destruct (local_handle_cases env t args) as (log & e & E & Hform & Hval & Hcall).
  exists log, e. split; [exact E|]. split; [exact Hform|]. split; [exact Hval|].
  destruct (validate env t args) as [v|error] eqn:Hv.
  - destruct (Hcall v eq_refl) as (L & Hrej & Hres). subst log. split.
    + intros call error [<-|[]]. apply Hrej.
    + intros v' call r [= <-] [<-|[]]. apply Hres.
  - destruct (Hval error eq_refl) as [-> _]. split; [intros call ? []|discriminate].
Qed.

Example create_board_success :
  handleCreateBoard demo_env
    (VObj [("apiKey", VStr "k"); ("token", VStr "t"); ("name", VStr "Roadmap")])
  = ([createBoard (mkCredentials (VStr "k") (VStr "t")) [("name", VStr "Roadmap")]],
     Normal {| content := [ {| type := "text"; text := "Created board: Demo" |} ];
               isError := None |}).
Proof. reflexivity. Qed.

(** A response whose [name] is an object with an own [toString]
    property cannot be printed in the summary: the [TypeError] of the
    template literal is caught and the handler returns the error
    envelope, after its one client call. *)
Example create_board_unprintable_name :
  handleCreateBoard
    (with_client demo_env
       (fun _ => Normal {| data := VObj [ ("id", VStr demo_id);
                                         ("name", VObj [("toString", VNum (inject_Z 1))]) ];
                           rateLimit := VNull |}))
    (VObj [("apiKey", VStr "k"); ("token", VStr "t"); ("name", VStr "Roadmap")])
  = ([createBoard (mkCredentials (VStr "k") (VStr "t")) [("name", VStr "Roadmap")]],
     Normal {| content := [ {| type := "text";
                               text := "Error creating board: Cannot convert object to primitive value" |} ];
               isError := Some true |}).
Proof. reflexivity. Qed.

(** A listing that is no array: [boards.length] is [undefined] and is
    printed, then the call of [boards.map] throws. *)
Example list_boards_not_an_array :
  handleListBoards
    (with_client demo_env (fun _ => Normal {| data := VBool true; rateLimit := VNull |}))
    (VObj [("apiKey", VStr "k"); ("token", VStr "t")])
  = ([getMyBoards (mkCredentials (VStr "k") (VStr "t")) VUndefined],
     Normal {| content := [ {| type := "text";
                               text := "Error listing boards: boards.map is not a function" |} ];
               isError := Some true |}).
Proof. reflexivity. Qed.

Example get_checklist_bad_id :
  handleTrelloGetChecklist demo_env
    (VObj [("apiKey", VStr "k"); ("token", VStr "t"); ("checklistId", VStr "bad-id")])
  = ([],
     Normal {| content := [ {| type := "text";
                               text := "Error getting checklist: invalid arguments" |} ];
               isError := Some true |}).
Proof. reflexivity. Qed.

(* ================================================================== *)
(** * Dispatch *)
(* ================================================================== *)

Lemma select_unregistered (name : string) (cs : list (string * HandlerRef)) :
  ~ In name (map fst cs) -> select name cs = None.
Proof.
  induction cs as [|[label h] cs IH]; simpl; [reflexivity|].
  intros H. destruct (String.eqb name label) eqn:E.
  - apply String.eqb_eq in E. subst. exfalso. apply H. now left.
  - apply IH. intros Hin. apply H. now right.
Qed.

Lemma select_registered (name : string) (cs : list (string * HandlerRef)) :
  In name (map fst cs) -> exists h, select name cs = Some h.
Proof.
  induction cs as [|[label h] cs IH]; simpl; [intros []|].
  intros [<-|H].
  - rewrite String.eqb_refl. eauto.
  - destruct (String.eqb name label); eauto.
Qed.

Lemma existsb_eqb_In (name : string) (l : list string) :
  existsb (String.eqb name) l = false -> ~ In name l.
Proof.
  induction l as [|x l IH]; simpl; [tauto|].
  rewrite orb_false_iff. intros [E R] [->|H].
  - now rewrite String.eqb_refl in E.
  - exact (IH R H).
Defined.

(** C3.  A name that is no [case] label of the dispatcher makes
    [callTool] throw [Error("Unknown tool: <name>")] without calling
    any handler or client; the call never completes with an envelope,
    soft error or not. *)
Theorem unknown_tool_raises (env : Env) (name : string) (args : Value) :
  ~ In name registry ->
  callTool env name args = ([], Abrupt (ThrowError ("Unknown tool: " ++ name))) /\
  (forall log e, callTool env name args <> (log, Normal e)).
Proof.
  intros H. unfold callTool, registry in *.
  rewrite (select_unregistered _ _ H). split; [reflexivity|].
  intros log e. discriminate.
Qed.

Lemma unknown_tool_witness :
  ~ In "trello_delete_board" registry /\
  callTool demo_env "trello_delete_board" (VObj []) =
    ([], Abrupt (ThrowError "Unknown tool: trello_delete_board")).
Proof.
  assert (H : ~ In "trello_delete_board" registry)
    by (apply existsb_eqb_In; reflexivity).
  split; [exact H|].
  exact (proj1 (unknown_tool_raises demo_env "trello_delete_board" (VObj []) H)).
Defined.

(** A registered name is handed to its handler with the arguments
    unchanged. *)
Lemma registered_tool_delegates (env : Env) (name : string) (args : Value) :
  In name registry ->
  exists h, select name cases = Some h /\ callTool env name args = handle env h args.
Proof.
  intros H. destruct (select_registered name cases H) as [h Hh].
  exists h. split; [exact Hh|]. unfold callTool. now rewrite Hh.
Qed.

(* ================================================================== *)
(** * Validated arguments and request payloads *)
(* ================================================================== *)

Lemma existsb_eqb_true (k : string) (l : list string) :
  existsb (String.eqb k) l = true <-> In k l.
Proof.
  rewrite existsb_exists. split.
  - intros (x & Hx & E). apply String.eqb_eq in E. now subst.
  - intros H. exists k. split; [exact H|apply String.eqb_refl].
Qed.

Lemma keys_collect (ks : list string) (v : Obj) :
  keys (collect ks v) = filter (fun k => defined (prop k v)) ks.
Proof.
  unfold keys, collect. induction ks as [|k ks IH]; simpl; [reflexivity|].
  rewrite map_app, IH. now destruct (defined (prop k v)).
Qed.

Lemma has_own_collect (k : string) (ks : list string) (v : Obj) :
  has_own k (collect ks v) = existsb (String.eqb k) ks && defined (prop k v).
Proof.
  unfold collect. induction ks as [|k' ks IH]; simpl; [reflexivity|].
  rewrite has_own_app, IH. destruct (String.eqb k k') eqn:E; simpl.
  - apply String.eqb_eq in E. subst k'.
    destruct (defined (prop k v)); simpl.
    + now rewrite String.eqb_refl.
    + now rewrite andb_false_r.
  - destruct (defined (prop k' v)); simpl; [|reflexivity]. now rewrite E.
Qed.

Lemma prop_collect (k : string) (ks : list string) (v : Obj) :
  prop k (collect ks v) = if existsb (String.eqb k) ks then prop k v else VUndefined.
Proof.
  unfold collect. induction ks as [|k' ks IH]; simpl; [reflexivity|].
  rewrite prop_app, IH. destruct (String.eqb k k') eqn:E; simpl.
  - apply String.eqb_eq in E. subst k'.
    destruct (defined (prop k v)) eqn:D; simpl.
    + now rewrite String.eqb_refl.
    + destruct (prop k v); try discriminate D. now destruct (existsb _ _).
  - destruct (defined (prop k' v)); simpl; [|reflexivity]. now rewrite E.
Qed.

Lemma collect_ext (ks : list string) (v w : Obj) :
  (forall k, In k ks -> prop k v = prop k w) -> collect ks v = collect ks w.
Proof.
  unfold collect. induction ks as [|k ks IH]; simpl; intros H; [reflexivity|].
  rewrite (H k) by now left. rewrite IH; [reflexivity|]. intros k' Hk'. apply H. now right.
Qed.

Lemma prop_mandatory (k : string) (ms : list string) (v rest : Obj) :
  In k ms -> prop k (map (fun m => (m, prop m v)) ms ++ rest)%list = prop k v.
Proof.
  induction ms as [|m ms IH]; simpl; [intros []|].
  intros H. destruct (String.eqb k m) eqn:E.
  - apply String.eqb_eq in E. now subst.
  - apply IH. destruct H as [->|H]; [|exact H]. now rewrite String.eqb_refl in E.
Qed.

Lemma has_own_mandatory (k : string) (ms : list string) (v : Obj) :
  has_own k (map (fun m => (m, prop m v)) ms) = existsb (String.eqb k) ms.
Proof. induction ms as [|m ms IH]; simpl; [reflexivity|]. now rewrite IH. Qed.

(** What validation returns, read through the schema. *)
Lemma validate_schema (env : Env) (t : LocalTool) (shape : Shape) :
  schema_of env t = Some shape -> validate env t = schema_parse shape.
Proof. destruct t; simpl; intros H; try discriminate; now injection H as <-. Qed.

Lemma validate_Normal (env : Env) (t : LocalTool) (shape : Shape) (args : Value) (v : Obj) :
  schema_of env t = Some shape ->
  validate env t args = Normal v ->
  exists data, args = VObj data /\ all_valid shape data = true /\ v = project shape data.
Proof.
  intros Hs. rewrite (validate_schema _ _ _ Hs). apply schema_parse_Normal.
Qed.

Lemma prop_validated (shape : Shape) (data : Obj) (k : string) :
  In k (map fst shape) -> prop k (project shape data) = prop k data.
Proof.
  intros H. rewrite prop_project.
  now rewrite (proj2 (existsb_eqb_true k (map fst shape)) H).
Qed.

Lemma optional_declared (env : Env) (t : LocalTool) (k : string) :
  In k (optional_fields env t) -> In k (declared_keys env t).
Proof.
  unfold optional_fields, declared_keys. destruct (schema_of env t) as [shape|]; [|tauto].
  rewrite !in_map_iff. intros ([k' ty] & <- & H). apply filter_In in H.
  exists (k', ty). tauto.
Qed.

Lemma write_style_schema (env : Env) (t : LocalTool) :
  write_style t = true -> exists shape, schema_of env t = Some shape.
Proof. destruct t; simpl; intros H; try discriminate; eauto. Qed.

Lemma mandatory_declared (env : Env) (t : LocalTool) (k : string) :
  In k ("apiKey" :: "token" :: payload_mandatory t ++ positional_fields t)%list ->
  write_style t = true ->
  In k (declared_keys env t).
Proof.
  destruct t; simpl; intros H W; try discriminate; intuition.
Qed.

Lemma mandatory_not_optional (env : Env) (t : LocalTool) (k : string) :
  In k (payload_mandatory t) -> In k (optional_fields env t) -> False.
Proof. destruct t; simpl; intuition congruence. Qed.

(** The request of a create- or update-style handler, in terms of the
    caller's argument map. *)
Lemma write_request (env : Env) (t : LocalTool) (data v : Obj) :
  write_style t = true ->
  validate env t (VObj data) = Normal v ->
  fst (local_handle env t (VObj data)) = [request t v] /\
  payload_of (request t v)
    = Some (map (fun m => (m, prop m data)) (payload_mandatory t)
            ++ collect (optional_fields env t) data)%list /\
  credentials_of (request t v) = mkCredentials (prop "apiKey" data) (prop "token" data) /\
  positional_of (request t v) = map (fun k => prop k data) (positional_fields t).
Proof.
  intros W Hv.
  destruct (write_style_schema env t W) as [shape Hs].
  destruct (validate_Normal env t shape _ v Hs Hv) as (data' & [= <-] & Hall & ->).
  assert (P : forall k, In k (declared_keys env t) ->
                        prop k (project shape data) = prop k data).
  { intros k Hk. apply prop_validated. unfold declared_keys in Hk. now rewrite Hs in Hk. }
  split.
  { destruct (local_handle_cases env t (VObj data)) as (log & e & E & _ & _ & Hcall).
    rewrite E. simpl. exact (proj1 (Hcall _ Hv)). }
  assert (Q : payload_of (request t (project shape data))
              = Some (map (fun m => (m, prop m (project shape data))) (payload_mandatory t)
                      ++ collect (optional_fields env t) (project shape data))%list
              /\ credentials_of (request t (project shape data))
                 = mkCredentials (prop "apiKey" (project shape data))
                                 (prop "token" (project shape data))
              /\ positional_of (request t (project shape data))
                 = map (fun k => prop k (project shape data)) (positional_fields t)).
  { clear - W. destruct t; try discriminate W; repeat split. }
  destruct Q as (Q1 & Q2 & Q3). rewrite Q1, Q2, Q3. repeat split.
  - f_equal. f_equal.
    + apply map_ext_in. intros m Hm. rewrite P; [reflexivity|].
      apply mandatory_declared; [|exact W]. simpl. right. right. apply in_or_app. now left.
    + apply collect_ext. intros k Hk. apply P. now apply optional_declared.
  - rewrite !P; [reflexivity| |]; apply mandatory_declared; simpl; auto.
  - apply map_ext_in. intros k Hk. apply P.
    apply mandatory_declared; [|exact W]. simpl. right. right. apply in_or_app. now right.
Qed.

(** ** Field by field *)




(** A declared key that rejects its value stops the handler before any
    client call. *)
Lemma field_rejected (env : Env) (t : LocalTool) (shape : Shape) (ty : ZType)
    (k : string) (data : Obj) :
  schema_of env t = Some shape ->
  field_type k shape = Some ty ->
  is_valid (parse ty [k] (prop k data)) = false ->
  exists e, validate env t (VObj data) = Abrupt (ThrowZod e) /\
            local_handle env t (VObj data) = ([], Normal (failure env t (ThrowZod e))).
Proof.
  intros Hs Hty Hbad.
  assert (Hall : all_valid shape data = false).
  { destruct (all_valid shape data) eqn:E; [|reflexivity].
    rewrite (all_valid_field _ _ _ _ E Hty) in Hbad. discriminate. }
  destruct (schema_parse_invalid _ _ Hall) as [e He].
  rewrite <- (validate_schema _ _ _ Hs) in He.
  exists e. split; [exact He|].
  destruct (local_handle_cases env t (VObj data)) as (log & e' & E & _ & Hval & _).
  destruct (Hval _ He) as [-> ->]. exact E.
Qed.

(** ** The identifier pattern *)




Arguments trello_id_regex s : simpl never.

Lemma field_accepts_typed (env : Env) (t : LocalTool) (shape : Shape) (ty : ZType)
    (k : string) (x : Value) :
  schema_of env t = Some shape ->
  field_type k shape = Some ty ->
  field_accepts env t k x = is_valid (parse ty [k] x).
Proof. intros Hs Hty. unfold field_accepts. now rewrite Hs, Hty. Qed.



(* ================================================================== *)
(** * Absence, null and the request payload *)
(* ================================================================== *)

(** C4.  When a create- or update-style handler of the two tool files
    accepts an argument map, it makes one client call.  The payload
    object holds the payload's required fields followed by exactly
    those optional fields the map supplies, each with the caller's
    value; an optional field the map omits has no entry at all.  The
    remaining required fields reach the client as credentials and as
    the method's own arguments. *)
Theorem payload_absence_preserved (env : Env) (t : LocalTool) (args : Value) (v : Obj) :
  write_style t = true ->
  validate env t args = Normal v ->
  exists data call p,
    args = VObj data /\
    fst (local_handle env t args) = [call] /\
    payload_of call = Some p /\
    credentials_of call = mkCredentials (prop "apiKey" data) (prop "token" data) /\
    positional_of call = map (fun k => prop k data) (positional_fields t) /\
    keys p = (payload_mandatory t
              ++ filter (fun k => defined (prop k data)) (optional_fields env t))%list /\
    (forall k, In k (keys p) -> prop k p = prop k data) /\
    (forall k, In k (optional_fields env t) -> has_own k p = defined (prop k data)).
Proof.
  intros W Hv.
  destruct (write_style_schema env t W) as [shape Hs].
  destruct (validate_Normal env t shape _ v Hs Hv) as (data & -> & _ & _).
  destruct (write_request env t data v W Hv) as (Hlog & Hp & Hc & Hpos).
  eexists data, (request t v), _. split; [reflexivity|]. split; [exact Hlog|].
  split; [exact Hp|]. split; [exact Hc|]. split; [exact Hpos|].
  assert (K : keys (map (fun m => (m, prop m data)) (payload_mandatory t)
                    ++ collect (optional_fields env t) data)%list
              = (payload_mandatory t
                 ++ filter (fun k => defined (prop k data)) (optional_fields env t))%list).
  { unfold keys. rewrite map_app, map_map. simpl. rewrite map_id.
    f_equal. apply keys_collect. }
  split; [exact K|]. split.
  - intros k Hk. rewrite prop_app, has_own_mandatory.
    destruct (existsb (String.eqb k) (payload_mandatory t)) eqn:M.
    + apply existsb_eqb_true in M. rewrite <- (app_nil_r (map _ _)).
      now apply prop_mandatory.
    + rewrite K in Hk. apply in_app_or in Hk. destruct Hk as [Hk|Hk].
      * apply existsb_eqb_true in Hk. congruence.
      * apply filter_In in Hk. destruct Hk as [Hk _].
        rewrite prop_collect. now rewrite (proj2 (existsb_eqb_true _ _) Hk).
  - intros k Hk. rewrite has_own_app, has_own_mandatory, has_own_collect.
    rewrite (proj2 (existsb_eqb_true _ _) Hk). simpl.
    destruct (existsb (String.eqb k) (payload_mandatory t)) eqn:M; [|reflexivity].
    apply existsb_eqb_true in M. destruct (mandatory_not_optional env t k M Hk).
Qed.

Lemma payload_absence_witness :
  exists data call p,
    VObj [("apiKey", VStr "k"); ("token", VStr "t"); ("cardId", VStr demo_id);
          ("checkItemId", VStr demo_id); ("state", VStr "complete")] = VObj data /\
    fst (local_handle demo_env UpdateChecklistItem
           (VObj [("apiKey", VStr "k"); ("token", VStr "t"); ("cardId", VStr demo_id);
                  ("checkItemId", VStr demo_id); ("state", VStr "complete")])) = [call] /\
    payload_of call = Some p /\
    credentials_of call = mkCredentials (prop "apiKey" data) (prop "token" data) /\
    positional_of call = map (fun k => prop k data) (positional_fields UpdateChecklistItem) /\
    keys p = (payload_mandatory UpdateChecklistItem
              ++ filter (fun k => defined (prop k data))
                        (optional_fields demo_env UpdateChecklistItem))%list /\
    (forall k, In k (keys p) -> prop k p = prop k data) /\
    (forall k, In k (optional_fields demo_env UpdateChecklistItem) ->
               has_own k p = defined (prop k data)).
Proof.
  apply (payload_absence_preserved demo_env UpdateChecklistItem _
           [("apiKey", VStr "k"); ("token", VStr "t"); ("cardId", VStr demo_id);
            ("checkItemId", VStr demo_id); ("state", VStr "complete")]);
    reflexivity.
Defined.

Example update_item_state_only :
  fst (handleTrelloUpdateChecklistItem demo_env
         (VObj [("apiKey", VStr "k"); ("token", VStr "t"); ("cardId", VStr demo_id);
                ("checkItemId", VStr demo_id); ("state", VStr "complete")]))
  = [updateChecklistItem (mkCredentials (VStr "k") (VStr "t")) (VStr demo_id) (VStr demo_id)
       [("state", VStr "complete")]].
Proof. reflexivity. Qed.

Lemma nullable_string_states (c : StringCheck) (p : list string) (x : Value) :
  is_valid (parse (z_optional (z_nullable (z_string [c]))) p x) = true ->
  x = VUndefined \/ x = VNull \/ exists s, x = VStr s.
Proof. destruct x; simpl; intros H; try discriminate; eauto. Qed.

(** C6.  In the check-item update the fields [due] and [idMember] have
    three input states that stay apart in the payload handed to the
    client: omitted (no entry), [null] (an entry holding [null]) and a
    string (an entry holding that string).  Validation accepts [null]
    and omission for both fields, whereas the check-item creation,
    whose [due] is not nullable, rejects [null]. *)
Theorem check_item_null_is_not_omission (env : Env) (args : Value) (v : Obj) :
  validate env UpdateChecklistItem args = Normal v ->
  (exists data p,
     args = VObj data /\
     fst (local_handle env UpdateChecklistItem args)
       = [updateChecklistItem
            (mkCredentials (prop "apiKey" data) (prop "token" data))
            (prop "cardId" data) (prop "checkItemId" data) p] /\
     forall k, k = "due" \/ k = "idMember" ->
       (prop k data = VUndefined /\ has_own k p = false) \/
       (prop k data = VNull /\ has_own k p = true /\ prop k p = VNull) \/
       (exists s, prop k data = VStr s /\ has_own k p = true /\ prop k p = VStr s)) /\
  (forall k, k = "due" \/ k = "idMember" ->
     field_accepts env UpdateChecklistItem k VNull = true /\
     field_accepts env UpdateChecklistItem k VUndefined = true /\
     field_accepts env CreateChecklistItem k VNull = false).
Proof.
  intros Hv. split; [|intros k [->| ->]; repeat split].
  destruct (validate_Normal env UpdateChecklistItem _ _ v eq_refl Hv)
    as (data & -> & Hall & _).
  destruct (write_request env UpdateChecklistItem data v eq_refl Hv)
    as (Hlog & Hp & Hc & Hpos).
  assert (Hcall : request UpdateChecklistItem v
                  = updateChecklistItem
                      (mkCredentials (prop "apiKey" data) (prop "token" data))
                      (prop "cardId" data) (prop "checkItemId" data)
                      (collect (optional_fields env UpdateChecklistItem) data)).
  { unfold request. cbv zeta. f_equal.
    - exact Hc.
    - exact (f_equal (fun l => hd VUndefined l) Hpos).
    - exact (f_equal (fun l => hd VUndefined (tl l)) Hpos).
    - exact (f_equal (fun o => match o with Some p => p | None => [] end) Hp). }
  rewrite Hcall in Hlog.
  eexists data, _. split; [reflexivity|]. split; [exact Hlog|].
  intros k Hk.
  assert (Hopt : existsb (String.eqb k) (optional_fields env UpdateChecklistItem) = true)
    by (destruct Hk as [->| ->]; reflexivity).
  assert (Hstates : prop k data = VUndefined \/ prop k data = VNull
                    \/ exists s, prop k data = VStr s).
  { destruct Hk as [->| ->];
      eapply nullable_string_states;
      apply (all_valid_field _ _ _ _ Hall); reflexivity. }
  rewrite has_own_collect, prop_collect, Hopt. simpl.
  destruct Hstates as [E|[E|[s E]]]; rewrite E; simpl; eauto 6.
Qed.

Lemma check_item_null_witness :
  fst (local_handle demo_env UpdateChecklistItem
         (VObj [("apiKey", VStr "k"); ("token", VStr "t"); ("cardId", VStr demo_id);
                ("checkItemId", VStr demo_id); ("due", VNull)]))
  = [updateChecklistItem (mkCredentials (VStr "k") (VStr "t")) (VStr demo_id) (VStr demo_id)
       [("due", VNull)]]
  /\ field_accepts demo_env UpdateChecklistItem "due" VNull = true.
Proof.
  pose proof (check_item_null_is_not_omission demo_env
                (VObj [("apiKey", VStr "k"); ("token", VStr "t"); ("cardId", VStr demo_id);
                       ("checkItemId", VStr demo_id); ("due", VNull)])
                _ eq_refl) as [_ H].
  split; [reflexivity|]. exact (proj1 (H "due" (or_introl eq_refl))).
Defined.

(* ================================================================== *)
(** * Identifier fields *)
(* ================================================================== *)



Example uppercase_id_rejected :
  field_accepts demo_env GetChecklist "checklistId" (VStr "5F1A2B3C4D5E6F7A8B9C0D1E") = false
  /\ field_accepts demo_env GetChecklist "checklistId" (VStr "5f1a2b3c4d5e6f7a8b9c0d1g") = false
  /\ field_accepts demo_env GetChecklist "checklistId" (VStr "5f1a2b3c4d5e6f7a8b9c0d1") = false.
Proof. repeat split. Qed.

(* ================================================================== *)
(** * Position fields *)
(* ================================================================== *)

Lemma pos_union_number (p : list string) (q : Q) :
  parse pos_union p (VNum q) =
  if Qle_bool 0 q then OK (VNum q) else DIRTY (VNum q) [mkIssue too_small p None].
Proof.
  unfold pos_union.
  cbn [parse flat_map number_issue app with_issues].
  destruct (Qle_bool 0 q); reflexivity.
Qed.

Lemma pos_union_string (p : list string) (s : string) :
  is_valid (parse pos_union p (VStr s)) = String.eqb s "top" || String.eqb s "bottom".
Proof.
  unfold pos_union. cbn [parse existsb].
  destruct (String.eqb s "top"); [reflexivity|].
  destruct (String.eqb s "bottom"); reflexivity.
Qed.

Lemma pos_union_accepts (p : list string) (x : Value) :
  is_valid (parse pos_union p x) = true <->
  (exists q, x = VNum q /\ (0 <= q)%Q) \/ x = VStr "top" \/ x = VStr "bottom".
Proof.
  destruct x as [| |b|q|s|items|props].
  1-3, 6-7: (split; [discriminate|]; intros [(q' & E & _)|[E|E]]; discriminate E).
  - rewrite pos_union_number. split.
    + destruct (Qle_bool 0 q) eqn:E; [|discriminate]. intros _. left. exists q.
      split; [reflexivity|]. now apply Qle_bool_iff.
    + intros [(q' & [= <-] & Hq)|[E|E]]; try discriminate E.
      apply Qle_bool_iff in Hq. now rewrite Hq.
  - rewrite pos_union_string, orb_true_iff, !String.eqb_eq. split.
    + intros [->| ->]; auto.
    + intros [(q' & E & _)|[[= ->]|[= ->]]]; [discriminate E|auto|auto].
Qed.

Lemma position_typed (env : Env) (t : LocalTool) :
  In t position_tools ->
  exists shape, schema_of env t = Some shape /\
                field_type "pos" shape = Some (z_optional pos_union).
Proof.
  unfold position_tools. simpl.
  intros [<-|[<-|[<-|[<-|[]]]]]; eexists; split; reflexivity.
Qed.

(** C7.  In the four schemas with a [pos] key the key has one and the
    same type, the optional union of a number at least [0] and the
    tokens ["top"] and ["bottom"].  A supplied value is accepted
    exactly when it is a non-negative number or one of the two tokens;
    negative numbers and all other strings are rejected; an accepted
    value of either form is returned unchanged by the one schema, and a
    rejected one stops the handler before any client call. *)
Theorem position_field (env : Env) (t : LocalTool) :
  In t position_tools ->
  (exists shape, schema_of env t = Some shape /\
                 field_type "pos" shape = Some (z_optional pos_union)) /\
  (forall x, x <> VUndefined ->
     (field_accepts env t "pos" x = true <->
      (exists q, x = VNum q /\ (0 <= q)%Q) \/ x = VStr "top" \/ x = VStr "bottom")) /\
  (forall q, (q < 0)%Q -> field_accepts env t "pos" (VNum q) = false) /\
  (forall s, s <> "top" -> s <> "bottom" -> field_accepts env t "pos" (VStr s) = false) /\
  (forall x, field_accepts env t "pos" x = true ->
     parse (z_optional pos_union) ["pos"] x = OK x) /\
  (forall data, field_accepts env t "pos" (prop "pos" data) = false ->
     exists e, local_handle env t (VObj data) = ([], Normal (failure env t (ThrowZod e)))).
Proof.
  intros Ht. destruct (position_typed env t Ht) as (shape & Hs & Hty).
  assert (A : forall x, field_accepts env t "pos" x
                        = is_valid (parse (z_optional pos_union) ["pos"] x))
    by (intros x; exact (field_accepts_typed env t shape _ "pos" x Hs Hty)).
  assert (B : forall x, x <> VUndefined ->
                        parse (z_optional pos_union) ["pos"] x = parse pos_union ["pos"] x)
    by (intros x Hx; destruct x; try reflexivity; now destruct Hx).
  split; [eauto|]. split; [|split; [|split; [|split]]].
  - intros x Hx. rewrite A, (B x Hx). apply pos_union_accepts.
  - intros q Hq. rewrite A, B by discriminate.
    destruct (is_valid (parse pos_union ["pos"] (VNum q))) eqn:E; [|reflexivity].
    apply pos_union_accepts in E. destruct E as [(q' & [= <-] & Hq')|[E|E]]; try discriminate E.
    exfalso. exact (Qlt_not_le _ _ Hq Hq').
  - intros s Htop Hbottom. rewrite A, B by discriminate.
    rewrite pos_union_string. apply orb_false_iff.
    split; apply String.eqb_neq; assumption.
  - intros x Hx. rewrite A in Hx.
    destruct (parse (z_optional pos_union) ["pos"] x) as [x'|x' i|i] eqn:E; try discriminate Hx.
    now rewrite (parse_OK_value _ _ _ _ E).
  - intros data Hbad. rewrite A in Hbad.
    destruct (field_rejected env t shape _ "pos" data Hs Hty Hbad) as (e & _ & He).
    eauto.
Qed.

Lemma position_field_witness :
  field_accepts demo_env CreateChecklist "pos" (VNum (3 # 2)%Q) = true /\
  field_accepts demo_env CreateChecklist "pos" (VStr "top") = true /\
  field_accepts demo_env CreateChecklist "pos" (VNum (-1 # 1)%Q) = false /\
  field_accepts demo_env CreateChecklist "pos" (VStr "middle") = false.
Proof.
  pose proof (position_field demo_env CreateChecklist (or_introl eq_refl))
    as (_ & H & Hneg & Hstr & _).
  split; [|split; [|split]].
  - apply (H (VNum (3 # 2)%Q)); [discriminate|]. left. exists (3 # 2)%Q. split; [reflexivity|].
    discriminate.
  - apply (H (VStr "top")); [discriminate|]. auto.
  - apply Hneg. reflexivity.
  - apply Hstr; discriminate.
Defined.

(* ================================================================== *)
(** * Deletions *)
(* ================================================================== *)


Example delete_checklist_confirms :
  handleTrelloDeleteChecklist demo_env
    (VObj [("apiKey", VStr "k"); ("token", VStr "t"); ("checklistId", VStr demo_id)])
  = ([deleteChecklist (mkCredentials (VStr "k") (VStr "t")) (VStr demo_id)],
     Normal (success demo_env
               (VObj [("summary", VStr "Deleted checklist 5f1a2b3c4d5e6f7a8b9c0d1e");
                      ("checklistId", VStr demo_id);
                      ("deleted", VBool true)]))).
Proof. reflexivity. Qed.

(* ================================================================== *)
(** * Free-text fields *)
(* ================================================================== *)

Lemma string_min_max_valid (p : list string) (s : string) (a b : N) (ma mb : option string) :
  is_valid (parse (z_string [s_min a ma; s_max b mb]) p (VStr s)) = true <->
  (a <= N.of_nat (String.length s) <= b)%N.
Proof.
  cbn [parse flat_map string_issue app with_issues].
  destruct (N.ltb_spec (N.of_nat (String.length s)) a);
    destruct (N.ltb_spec b (N.of_nat (String.length s)));
    cbn [app with_issues is_valid];
    split; intros; try discriminate; try lia; reflexivity.
Qed.

Lemma string_max_valid (p : list string) (s : string) (b : N) (mb : option string) :
  is_valid (parse (z_string [s_max b mb]) p (VStr s)) = true <->
  (0 <= N.of_nat (String.length s) <= b)%N.
Proof.
  cbn [parse flat_map string_issue app with_issues].
  destruct (N.ltb_spec b (N.of_nat (String.length s)));
    cbn [app with_issues is_valid];
    split; intros; try discriminate; try lia; reflexivity.
Qed.

Lemma parse_optional_string (ty : ZType) (p : list string) (s : string) :
  parse (z_optional ty) p (VStr s) = parse ty p (VStr s).
Proof. reflexivity. Qed.

(** C9, as the code has it.  A free-text name or description is
    accepted exactly when its length lies between the field's least
    length and 16384: the names must be non-empty, the board
    description may be empty, and nothing longer than 16384 passes. *)
Theorem free_text_length (env : Env) (t : LocalTool) (k : string) (s : string) :
  In (t, k) free_text_fields ->
  (field_accepts env t k (VStr s) = true <->
   (min_length t k <= N.of_nat (String.length s) <= 16384)%N).
Proof.
  unfold free_text_fields. simpl.
  intros [H|[H|[H|[H|[H|[H|[]]]]]]]; injection H as <- <-;
    erewrite field_accepts_typed by reflexivity;
    rewrite ?parse_optional_string;
    first [apply string_min_max_valid | apply string_max_valid].
Qed.

Lemma free_text_length_witness :
  field_accepts demo_env CreateBoard "name" (VStr "Roadmap") = true <->
  (min_length CreateBoard "name" <= N.of_nat (String.length "Roadmap") <= 16384)%N.
Proof.
  apply (free_text_length demo_env CreateBoard "name" "Roadmap"). left. reflexivity.
Defined.

(** C9 read literally (every string of length at most 16384 is
    accepted) fails on the empty board name. *)
Lemma free_text_empty_name_rejected :
  ~ (forall (env : Env) (t : LocalTool) (k s : string),
       In (t, k) free_text_fields ->
       (N.of_nat (String.length s) <= 16384)%N ->
       field_accepts env t k (VStr s) = true).
Proof.
  intros H.
  specialize (H demo_env CreateBoard "name" "" (or_introl eq_refl)).
  assert (E : field_accepts demo_env CreateBoard "name" (VStr "") = false) by reflexivity.
  rewrite H in E; [discriminate|]. simpl. lia.
Qed.

Example free_text_boundary :
  field_accepts demo_env CreateBoard "desc"
    (VStr (string_of_list_ascii (repeat "x"%char 16384))) = true /\
  field_accepts demo_env CreateBoard "desc"
    (VStr (string_of_list_ascii (repeat "x"%char 16385))) = false /\
  field_accepts demo_env CreateBoard "desc" (VStr "") = true.
Proof. vm_compute. auto. Qed.

(* ================================================================== *)
(** * Undeclared fields *)
(* ================================================================== *)

Lemma read_only_payload (t : LocalTool) (v : Obj) :
  write_style t = false -> payload_of (request t v) = None.
Proof. destruct t; simpl; intros H; try discriminate; reflexivity. Qed.

(** C10.  Two argument maps that agree on the keys a schema declares
    are validated alike and handled alike, whatever other keys they
    hold: undeclared fields cause no rejection.  The validated
    arguments have no undeclared key, and neither has the payload of
    any client call the handler makes. *)
Theorem undeclared_fields_stripped (env : Env) (t : LocalTool) (shape : Shape)
    (data data' : Obj) :
  schema_of env t = Some shape ->
  (forall k, In k (declared_keys env t) ->
             prop k data' = prop k data /\ has_own k data' = has_own k data) ->
  validate env t (VObj data') = validate env t (VObj data) /\
  local_handle env t (VObj data') = local_handle env t (VObj data) /\
  (forall v k, validate env t (VObj data') = Normal v ->
               ~ In k (declared_keys env t) -> has_own k v = false) /\
  (forall call p k, In call (fst (local_handle env t (VObj data'))) ->
                    payload_of call = Some p ->
                    ~ In k (declared_keys env t) -> has_own k p = false).
Proof.
  intros Hs Hagree.
  assert (D : declared_keys env t = map fst shape)
    by (unfold declared_keys; now rewrite Hs).
  assert (Hval : validate env t (VObj data') = validate env t (VObj data)).
  { rewrite (validate_schema _ _ _ Hs). apply schema_parse_agree.
    intros k Hk. apply Hagree. now rewrite D. }
  split; [exact Hval|]. split; [|split].
  - clear - Hs Hval. unfold validate in Hval.
    destruct t; try discriminate Hs; unfold local_handle;
      match goal with |- ?h env _ = _ => unfold h end;
      now rewrite Hval.
  - intros v k Hv Hk.
    destruct (validate_Normal _ _ _ _ _ Hs Hv) as (d & _ & _ & ->).
    destruct (has_own k (project shape d)) eqn:E; [|reflexivity].
    exfalso. apply Hk. rewrite D. exact (has_own_project _ _ _ E).
  - intros call p k Hcall Hp Hk.
    destruct (local_handle_cases env t (VObj data')) as (log & e & E & _ & Hinv & Hok).
    rewrite E in Hcall. simpl in Hcall.
    destruct (validate env t (VObj data')) as [v|error] eqn:Hv.
    + destruct (Hok v eq_refl) as (-> & _). destruct Hcall as [<-|[]].
      destruct (write_style t) eqn:W.
      * destruct (write_request env t data' v W Hv) as (_ & Hp' & _).
        rewrite Hp' in Hp. injection Hp as <-.
        rewrite has_own_app, has_own_mandatory, has_own_collect.
        apply orb_false_iff. split.
        -- destruct (existsb (String.eqb k) (payload_mandatory t)) eqn:M; [|reflexivity].
           exfalso. apply Hk. apply existsb_eqb_true in M.
           apply mandatory_declared; [|exact W]. simpl. right. right.
           apply in_or_app. now left.
        -- destruct (existsb (String.eqb k) (optional_fields env t)) eqn:O; [|reflexivity].
           exfalso. apply Hk. apply existsb_eqb_true in O. now apply optional_declared.
      * rewrite (read_only_payload t v W) in Hp. discriminate.
    + destruct (Hinv error eq_refl) as (-> & _). destruct Hcall.
Qed.

Lemma undeclared_fields_witness :
  local_handle demo_env CreateChecklist
    (VObj [("color", VStr "red"); ("apiKey", VStr "k"); ("token", VStr "t");
           ("idCard", VStr demo_id); ("name", VStr "Steps"); ("note", VNull)])
  = local_handle demo_env CreateChecklist
      (VObj [("apiKey", VStr "k"); ("token", VStr "t");
             ("idCard", VStr demo_id); ("name", VStr "Steps")]).
Proof.
  refine (proj1 (proj2 (undeclared_fields_stripped demo_env CreateChecklist _
            [("apiKey", VStr "k"); ("token", VStr "t");
             ("idCard", VStr demo_id); ("name", VStr "Steps")]
            [("color", VStr "red"); ("apiKey", VStr "k"); ("token", VStr "t");
             ("idCard", VStr demo_id); ("name", VStr "Steps"); ("note", VNull)]
            eq_refl _))).
  simpl. intros k [<-|[<-|[<-|[<-|[<-|[<-|[]]]]]]]; split; reflexivity.
Defined.

Example undeclared_field_not_forwarded :
  fst (handleTrelloCreateChecklist demo_env
         (VObj [("color", VStr "red"); ("apiKey", VStr "k"); ("token", VStr "t");
                ("idCard", VStr demo_id); ("name", VStr "Steps"); ("note", VNull)]))
  = [createChecklist (mkCredentials (VStr "k") (VStr "t"))
       [("idCard", VStr demo_id); ("name", VStr "Steps")]].
Proof. reflexivity. Qed.

(* ================================================================== *)
(** * Further properties of the dispatch and validation layer *)
(* ================================================================== *)

(** Each tool of the two tool files is listed by the server and its
    name is a [case] label that selects its own handler; no label
    occurs twice in the [switch]. *)
Lemma local_tools_registered (env : Env) (t : LocalTool) :
  In (local_tool t) (listTools env) /\
  select (name (local_tool t)) cases = Some (Local t) /\
  distinct registry = true.
Proof.
  split; [|split; [|reflexivity]].
  - destruct t; unfold listTools; simpl; tauto.
  - destruct t; reflexivity.
Qed.

(** A handler makes no client call when validation fails, and
    exactly one when validation succeeds: the request built from the
    validated arguments, whether the client then resolves or rejects
    and whatever the response holds.  So it never makes more than one
    call. *)
Lemma single_client_call (env : Env) (t : LocalTool) (args : Value) :
  match validate env t args with
  | Normal v => fst (local_handle env t args) = [request t v]
  | Abrupt _ => fst (local_handle env t args) = []
  end /\
  List.length (fst (local_handle env t args)) <= 1.
Proof.
  destruct (local_handle_cases env t args) as (log & e & E & _ & Hinv & Hok).
  rewrite E. simpl. destruct (validate env t args) as [v|error].
  - destruct (Hok v eq_refl) as (-> & _). simpl. split; [reflexivity|lia].
  - destruct (Hinv error eq_refl) as (-> & _). simpl. split; [reflexivity|lia].
Qed.

(** The two credential fields are required by every schema of the two
    tool files: each accepts exactly the non-empty strings. *)
Lemma credentials_required (env : Env) (t : LocalTool) (shape : Shape) (k : string) (x : Value) :
  schema_of env t = Some shape ->
  k = "apiKey" \/ k = "token" ->
  (field_accepts env t k x = true <-> exists s, x = VStr s /\ s <> "").
Proof.
  intros Hs Hk.
  assert (A : exists msg, field_accepts env t k x
                          = is_valid (parse (z_string [s_min 1%N msg]) [k] x)).
  { destruct t; try discriminate Hs; destruct Hk as [->| ->];
      eexists;
      match goal with
      | |- field_accepts _ ?T ?K _ = _ =>
          apply (field_accepts_typed env T _ _ K x eq_refl eq_refl)
      end. }
  destruct A as [msg ->].
  destruct x; try (split; [discriminate|]; intros (s' & E & _); discriminate E).
  cbn [parse flat_map string_issue app with_issues].
  destruct (N.ltb_spec (N.of_nat (String.length s)) 1) as [Hlen|Hlen];
    cbn [app with_issues is_valid].
  - split; [discriminate|]. intros (s' & [= <-] & Hne).
    destruct s; [now destruct Hne|]. simpl in Hlen. lia.
  - split; [|reflexivity]. intros _. exists s. split; [reflexivity|].
    intros ->. simpl in Hlen. lia.
Qed.

Lemma credentials_required_witness :
  field_accepts demo_env GetChecklist "apiKey" (VStr "") = true <->
  exists s, VStr "" = VStr s /\ s <> "".
Proof.
  apply (credentials_required demo_env GetChecklist validateGetChecklist_schema "apiKey").
  - reflexivity.
  - left. reflexivity.
Defined.

(* ================================================================== *)
(** * From the arguments to the client call *)
(* ================================================================== *)

(** The keys of a schema that are not declared [.optional()]. *)
Definition required_fields (env : Env) (t : LocalTool) : list string :=
  match schema_of env t with
  | Some shape =>
      map fst (filter (fun kt : string * ZType => negb (is_optional (snd kt))) shape)
  | None => []
  end.

Lemma request_reads_declared (env : Env) (t : LocalTool) (shape : Shape) (v w : Obj) :
  schema_of env t = Some shape ->
  (forall k, In k (map fst shape) -> prop k v = prop k w) ->
  request t v = request t w.
Proof.
  intros Hs P.
  destruct t; try discriminate Hs; injection Hs as <-;
    unfold request; cbv zeta;
    rewrite ?(collect_ext _ v w) by (intros k Hk; apply P; simpl in *; tauto);
    rewrite !P by (simpl; tauto);
    reflexivity.
Qed.

(** Accepted arguments lead to exactly one client call, and that call
    is built from the caller's own values: the credentials, the
    identifiers and the payload entries are those of the argument map. *)
Theorem request_from_arguments (env : Env) (t : LocalTool) (shape : Shape)
    (data v : Obj) :
  schema_of env t = Some shape ->
  validate env t (VObj data) = Normal v ->
  fst (local_handle env t (VObj data)) = [request t data].
Proof.
  intros Hs Hv.
  destruct (validate_Normal env t shape _ v Hs Hv) as (d & [= <-] & _ & ->).
  destruct (local_handle_cases env t (VObj data)) as (log & e & E & _ & _ & Hok).
  rewrite E. simpl. destruct (Hok _ Hv) as (-> & _). f_equal.
  apply (request_reads_declared env t shape _ _ Hs).
  intros k Hk. now apply prop_validated.
Qed.

Lemma request_from_arguments_witness :
  fst (local_handle demo_env DeleteChecklistItem
         (VObj [("apiKey", VStr "k"); ("token", VStr "t");
                ("checklistId", VStr demo_id); ("checkItemId", VStr demo_id)]))
  = [request DeleteChecklistItem
       [("apiKey", VStr "k"); ("token", VStr "t");
        ("checklistId", VStr demo_id); ("checkItemId", VStr demo_id)]].
Proof.
  apply (request_from_arguments demo_env DeleteChecklistItem
           validateDeleteChecklistItem_schema _
           [("apiKey", VStr "k"); ("token", VStr "t");
            ("checklistId", VStr demo_id); ("checkItemId", VStr demo_id)]);
    reflexivity.
Defined.



(** Arguments that are no object at all ([undefined] when the request
    carries none, [null], an array, a primitive) make every handler
    with a schema of its own return the error envelope without a client
    call. *)
Theorem non_object_arguments_rejected (env : Env) (t : LocalTool) (shape : Shape)
    (args : Value) :
  schema_of env t = Some shape ->
  is_object args = false ->
  local_handle env t args
  = ([], Normal (failure env t (ThrowZod [mkIssue invalid_type [] None]))).
Proof.
  intros Hs Hargs.
  assert (Hv : validate env t args = Abrupt (ThrowZod [mkIssue invalid_type [] None])).
  { rewrite (validate_schema _ _ _ Hs). now apply schema_parse_non_object. }
  destruct (local_handle_cases env t args) as (log & e & E & _ & Hinv & _).
  destruct (Hinv _ Hv) as [-> ->]. exact E.
Qed.

Lemma non_object_arguments_witness :
  local_handle demo_env UpdateChecklist VUndefined
  = ([], Normal (failure demo_env UpdateChecklist
                   (ThrowZod [mkIssue invalid_type [] None]))).
Proof.
  apply (non_object_arguments_rejected demo_env UpdateChecklist
           validateUpdateChecklist_schema VUndefined); reflexivity.
Defined.

(** An argument map that lacks a required field is rejected before any
    client call: the handler returns its error envelope and the call
    log is empty. *)
Theorem missing_required_field (env : Env) (t : LocalTool) (k : string) (data : Obj) :
  In k (required_fields env t) ->
  prop k data = VUndefined ->
  exists e, validate env t (VObj data) = Abrupt (ThrowZod e) /\
            local_handle env t (VObj data) = ([], Normal (failure env t (ThrowZod e))).
Proof.
  intros Hk Hmiss.
  assert (A : exists shape ty,
             schema_of env t = Some shape /\ field_type k shape = Some ty /\
             is_valid (parse ty [k] VUndefined) = false).
  { destruct t; simpl in Hk;
      repeat (destruct Hk as [<-|Hk]; [eexists _, _; repeat split|]);
      contradiction. }
  destruct A as (shape & ty & Hs & Hty & Hbad).
  apply (field_rejected env t shape ty k data Hs Hty). now rewrite Hmiss.
Qed.

Lemma missing_required_field_witness :
  exists e,
    validate demo_env CreateChecklistItem
      (VObj [("apiKey", VStr "k"); ("token", VStr "t"); ("checklistId", VStr demo_id)])
    = Abrupt (ThrowZod e) /\
    local_handle demo_env CreateChecklistItem
      (VObj [("apiKey", VStr "k"); ("token", VStr "t"); ("checklistId", VStr demo_id)])
    = ([], Normal (failure demo_env CreateChecklistItem (ThrowZod e))).
Proof.
  apply (missing_required_field demo_env CreateChecklistItem "name").
  - simpl. tauto.
  - reflexivity.
Defined.

(* ================================================================== *)
(** * Closed value sets *)
(* ================================================================== *)

Lemma optional_enum_accepts (values : list string) (p : list string) (x : Value) :
  is_valid (parse (z_optional (z_enum values)) p x) = true <->
  x = VUndefined \/ exists s, x = VStr s /\ In s values.
Proof.
  destruct x; simpl;
    try (split; [discriminate|]; intros [E|(s' & E & _)]; discriminate E).
  - split; auto.
  - destruct (existsb (String.eqb s) values) eqn:E; simpl.
    + split; [|reflexivity]. intros _. right. exists s. split; [reflexivity|].
      now apply existsb_eqb_true.
    + split; [discriminate|]. intros [H|(s' & [= <-] & Hin)]; [discriminate H|].
      apply existsb_eqb_true in Hin. congruence.
Qed.

(** The board visibility and the check-item state are closed sets: a
    supplied value is accepted exactly when it is one of the listed
    tokens; any other string, [null] and every non-string are
    rejected. *)
Theorem enumerated_fields_closed (env : Env) (x : Value) :
  (field_accepts env CreateBoard "prefs_permissionLevel" x = true <->
   x = VUndefined \/
   exists s, x = VStr s /\ In s ["org"; "private"; "public"; "enterprise"]) /\
  (field_accepts env UpdateChecklistItem "state" x = true <->
   x = VUndefined \/ exists s, x = VStr s /\ In s ["complete"; "incomplete"]).
Proof.
  split.
  - rewrite (field_accepts_typed env CreateBoard _ _ "prefs_permissionLevel" x
               eq_refl eq_refl).
    apply optional_enum_accepts.
  - rewrite (field_accepts_typed env UpdateChecklistItem _ _ "state" x eq_refl eq_refl).
    apply optional_enum_accepts.
Qed.

(** The flags [defaultLabels], [defaultLists] and [checked] take real
    booleans only: a supplied value is accepted exactly when it is
    [true] or [false], so the strings ["true"] and ["false"], numbers
    and [null] are rejected. *)
Theorem boolean_fields_strict (env : Env) (t : LocalTool) (k : string) (x : Value) :
  In (t, k) [(CreateBoard, "defaultLabels"); (CreateBoard, "defaultLists");
             (CreateChecklistItem, "checked")] ->
  (field_accepts env t k x = true <-> x = VUndefined \/ exists b, x = VBool b).
Proof.
  simpl. intros [H|[H|[H|[]]]]; injection H as <- <-;
    erewrite field_accepts_typed by reflexivity;
    destruct x; simpl; split; intros H;
    try discriminate H; eauto;
    destruct H as [H|[b' H]]; discriminate H.
Qed.

Lemma boolean_fields_witness :
  field_accepts demo_env CreateBoard "defaultLists" (VStr "true") = true <->
  VStr "true" = VUndefined \/ exists b, VStr "true" = VBool b.
Proof.
  apply (boolean_fields_strict demo_env CreateBoard "defaultLists").
  simpl. tauto.
Defined.

(* ================================================================== *)
(** * Dispatch composed with the handlers *)
(* ================================================================== *)

(** Calling a tool of the two tool files by the name its descriptor
    advertises runs its own handler on the unchanged arguments, and the
    call returns an envelope: nothing is thrown through the
    dispatcher. *)
Theorem callTool_runs_advertised_handler (env : Env) (t : LocalTool) (args : Value) :
  callTool env (name (local_tool t)) args = local_handle env t args /\
  exists log e, callTool env (name (local_tool t)) args = (log, Normal e).
Proof.
  assert (E : callTool env (name (local_tool t)) args = local_handle env t args)
    by (destruct t; reflexivity).
  split; [exact E|]. rewrite E.
  destruct (local_handle_cases env t args) as (log & e & H & _).
  exists log, e. exact H.
Qed.
(* ================================================================== *)
(** * What a successful envelope holds *)
(* ================================================================== *)

(** The outcome of a handler whose validation returned [v] and whose
    client call [call] resolved with [r]. *)
Lemma pipeline_outcome (env : Env) (prefix : string) (c : Completion Obj)
    (req : Obj -> ClientCall) (k : Obj -> TrelloApiResponse -> M Envelope)
    (v : Obj) (call : ClientCall) (r : TrelloApiResponse) :
  c = Normal v ->
  req v = call ->
  client env call = Normal r ->
  silent (k v r) ->
  try_catch (v <- lift c ;; r <- await (client env) (req v) ;; k v r)
            (catch_block env prefix)
  = ([call],
     Normal (match snd (k v r) with
             | Normal e => e
             | Abrupt error =>
                 {| content := [ {| type := "text";
                                    text := prefix ++ errorMessage env error |} ];
                    isError := Some true |}
             end)).
Proof.
  intros -> <- Hc Hs. rewrite try_catch_block. simpl. rewrite Hc.
  unfold silent in Hs. destruct (k v r) as [l [e|error]]; simpl in *; now subst l.
Qed.

(** Rewrites a handler on accepted arguments and a resolved call into
    its outcome. *)
Ltac handler_outcome Hv Hc :=
  unfold local_handle; match goal with |- ?h _ _ = _ => unfold h end; cbv zeta;
  etransitivity;
  [ refine (pipeline_outcome _ _ _ _ _ _ _ _ Hv _ Hc _);
    [ cbv beta; unfold request, collect; cbv zeta; simpl; rewrite ?app_nil_r; reflexivity
    | silence ]
  | cbv beta ].

(** The property a handler reads first from the response data. *)
Definition first_read (t : LocalTool) : option string :=
  match t with
  | ListBoards | GetLists => Some "length"
  | DeleteChecklist | DeleteChecklistItem => None
  | _ => Some "name"
  end.

(** A successful handler run: arguments accepted, one call made and
    resolved, and the envelope the [try] block returned. *)
Lemma success_run (env : Env) (t : LocalTool) (args : Value)
    (log : list ClientCall) (e : Envelope) :
  local_handle env t args = (log, Normal e) ->
  isError e = None ->
  exists v r,
    validate env t args = Normal v /\
    log = [request t v] /\
    client env (request t v) = Normal r.
Proof.
  intros H He.
  destruct (local_handle_cases env t args) as (log' & e' & E & _ & Hinv & Hok).
  rewrite E in H. injection H as -> ->.
  destruct (validate env t args) as [v|error] eqn:Hv.
  - destruct (Hok v eq_refl) as (-> & Hrej & _).
    destruct (client env (request t v)) as [r|error] eqn:Hc.
    + exists v, r. auto.
    + rewrite (Hrej error eq_refl) in He. discriminate He.
  - destruct (Hinv error eq_refl) as [_ ->]. discriminate He.
Qed.

(** Splits a successful run into validated arguments, response and the
    normal completion [Ht] of the rest of the [try] block. *)
Ltac success_tail H He v r Ht :=
  let Hv := fresh "Hv" in let Hc := fresh "Hc" in let Hl := fresh "Hlog" in
  let Hrun := fresh "Hrun" in
  destruct (success_run _ _ _ _ _ H He) as (v & r & Hv & Hl & Hc);
  match type of H with
  | local_handle ?env ?T ?args = _ =>
      eassert (Hrun : local_handle env T args = _)
        by (handler_outcome Hv Hc; reflexivity)
  end;
  rewrite Hrun in H; clear Hrun;
  match type of H with
  | (_, Normal (match snd ?tail with _ => _ end)) = _ =>
      let l := fresh "l" in let e' := fresh "e" in let err := fresh "error" in
      destruct tail as [l [e'|err]] eqn:Ht; simpl in H; injection H as _ H;
      [ subst e' | rewrite <- H in He; discriminate He ]
  end.

(** The rate-limit annotation of the response reaches the result
    unmodified in every read, create and update handler; the two
    deletion results carry none. *)
Theorem rate_limit_passed_through (env : Env) (t : LocalTool) (args : Value)
    (log : list ClientCall) (e : Envelope) :
  local_handle env t args = (log, Normal e) ->
  isError e = None ->
  exists v r fields,
    validate env t args = Normal v /\
    log = [request t v] /\
    client env (request t v) = Normal r /\
    e = success env (VObj fields) /\
    match first_read t with
    | Some _ => has_own "rateLimit" fields = true /\ prop "rateLimit" fields = rateLimit r
    | None => has_own "rateLimit" fields = false
    end.
Proof.
  intros H He.
  destruct (success_run env t args log e H He) as (v0 & r0 & Hv0 & Hl0 & Hc0).
  destruct t; success_tail H He v r Ht;
    (assert (v = v0) by congruence; subst v0;
     assert (r = r0) by congruence; subst r0;
     invert_binds Ht; injection Ht as _ <-;
     eexists v, r, _; repeat split; eauto).
Qed.

Lemma rate_limit_witness :
  exists v r fields,
    validate demo_env CreateBoard
      (VObj [("apiKey", VStr "k"); ("token", VStr "t"); ("name", VStr "Roadmap")])
    = Normal v /\
    [createBoard (mkCredentials (VStr "k") (VStr "t")) [("name", VStr "Roadmap")]]
    = [request CreateBoard v] /\
    client demo_env (request CreateBoard v) = Normal r /\
    {| content := [ {| type := "text"; text := "Created board: Demo" |} ];
       isError := None |} = success demo_env (VObj fields) /\
    match first_read CreateBoard with
    | Some _ => has_own "rateLimit" fields = true /\ prop "rateLimit" fields = rateLimit r
    | None => has_own "rateLimit" fields = false
    end.
Proof.
  apply (rate_limit_passed_through demo_env CreateBoard
           (VObj [("apiKey", VStr "k"); ("token", VStr "t"); ("name", VStr "Roadmap")]));
    reflexivity.
Defined.

(** A call that resolves without an entity ([data] is [null] or
    [undefined]) does not produce a half-built success: reading the
    first property throws, the [catch] block turns the [TypeError] into
    the error envelope, and exactly the one call was made. *)
Theorem missing_entity_is_an_error (env : Env) (t : LocalTool) (key : string)
    (args : Value) (v : Obj) (r : TrelloApiResponse) :
  first_read t = Some key ->
  validate env t args = Normal v ->
  client env (request t v) = Normal r ->
  nullish (data r) = true ->
  local_handle env t args
  = ([request t v],
     Normal (failure env t (ThrowError (TypeError_message env (data r) key)))).
Proof.
  intros Hk Hv Hc Hnull.
  destruct t; try discriminate Hk; injection Hk as <-;
    handler_outcome Hv Hc;
    destruct (data r); try discriminate Hnull; reflexivity.
Qed.

Lemma missing_entity_witness :
  local_handle
    (with_client demo_env (fun _ => Normal {| data := VNull; rateLimit := VNull |}))
    GetChecklist
    (VObj [("apiKey", VStr "k"); ("token", VStr "t"); ("checklistId", VStr demo_id)])
  = ([getChecklist (mkCredentials (VStr "k") (VStr "t")) (VStr demo_id)],
     Normal {| content := [ {| type := "text";
                               text := "Error getting checklist: Cannot read properties of undefined" |} ];
               isError := Some true |}).
Proof.
  exact (missing_entity_is_an_error
           (with_client demo_env (fun _ => Normal {| data := VNull; rateLimit := VNull |}))
           GetChecklist "name"
           (VObj [("apiKey", VStr "k"); ("token", VStr "t"); ("checklistId", VStr demo_id)])
           _ {| data := VNull; rateLimit := VNull |}
           eq_refl eq_refl eq_refl eq_refl).
Defined.

(* ================================================================== *)
(** * Listings and embedded details *)
(* ================================================================== *)

(** The own data properties later reads of a non-null value see. *)
Definition own_props (x : Value) : Obj :=
  match x with VObj ps => ps | _ => [] end.

(** The entry [handleListBoards] builds for one board of the response. *)
Definition board_entry (b : Value) : Value :=
  let board := own_props b in
  VObj [ ("id", prop "id" board);
         ("name", prop "name" board);
         ("description", logical_or (prop "desc" board) (VStr "No description"));
         ("url", prop "shortUrl" board);
         ("lastActivity", prop "dateLastActivity" board);
         ("closed", prop "closed" board) ].

(** The entry [handleGetLists] builds for one list of the response. *)
Definition list_entry (l : Value) : Value :=
  let list := own_props l in
  VObj [ ("id", prop "id" list);
         ("name", prop "name" list);
         ("position", prop "pos" list);
         ("closed", prop "closed" list);
         ("subscribed", prop "subscribed" list) ].

(** The entry [handleTrelloGetChecklist] builds for one check item. *)
Definition item_entry (i : Value) : Value :=
  let item := own_props i in
  VObj [ ("id", prop "id" item);
         ("name", prop "name" item);
         ("state", prop "state" item);
         ("position", prop "pos" item);
         ("due", prop "due" item);
         ("idMember", prop "idMember" item) ].

Lemma traverse_map (f : Value -> M Value) (g : Value -> Value) (items : list Value)
    (l : list ClientCall) (ys : list Value) :
  (forall x lx y, f x = (lx, Normal y) -> nullish x = false /\ y = g x) ->
  traverse f items = (l, Normal ys) ->
  ys = map g items /\ forallb (fun x => negb (nullish x)) items = true.
Proof.
  intros Hf. revert l ys. induction items as [|x items IH]; simpl; intros l ys H.
  - injection H as _ <-. auto.
  - apply bind_Normal in H. destruct H as (l1 & y & l2 & Hx & H & _).
    apply bind_Normal in H. destruct H as (l3 & ys' & l4 & Hrest & H & _).
    injection H as _ <-.
    destruct (Hf _ _ _ Hx) as [Hn ->]. destruct (IH _ _ Hrest) as [-> Hall].
    rewrite Hn. simpl. auto.
Qed.

Lemma array_map_map (env : Env) (callee : string) (f : Value -> M Value) (g : Value -> Value)
    (d : Value) (l : list ClientCall) (y : Value) :
  (forall x lx y, f x = (lx, Normal y) -> nullish x = false /\ y = g x) ->
  array_map env callee d f = (l, Normal y) ->
  exists items, d = VArr items /\ y = VArr (map g items) /\
                forallb (fun x => negb (nullish x)) items = true.
Proof.
  intros Hf H. destruct d; try discriminate H. simpl in H.
  apply bind_Normal in H. destruct H as (l1 & ys & l2 & Ht & H & _).
  injection H as _ <-. destruct (traverse_map f g items _ _ Hf Ht) as [-> Hall].
  exists items. auto.
Qed.

Lemma opt_array_map_map (env : Env) (callee : string) (f : Value -> M Value)
    (g : Value -> Value) (d : Value) (l : list ClientCall) (y : Value) :
  (forall x lx y, f x = (lx, Normal y) -> nullish x = false /\ y = g x) ->
  opt_array_map env callee d f = (l, Normal y) ->
  (nullish d = true /\ y = VUndefined) \/
  exists items, d = VArr items /\ y = VArr (map g items) /\
                forallb (fun x => negb (nullish x)) items = true.
Proof.
  intros Hf H. unfold opt_array_map in H. destruct (nullish d) eqn:N.
  - injection H as _ <-. now left.
  - right. exact (array_map_map env callee f g d l y Hf H).
Qed.

(** Derives what an entry callback returns from its normal completion. *)
Ltac entry_callback :=
  let x := fresh "x" in let lx := fresh "lx" in let y := fresh "y" in
  let H := fresh "H" in
  intros x lx y H; destruct x; simpl in H; try discriminate H;
  injection H as _ <-; split; reflexivity.

(** A successful board listing has one entry per board of the response,
    in the response's order, each built from that board alone; the
    summary counts the same boards. *)
Theorem list_boards_keeps_every_board (env : Env) (args : Value)
    (log : list ClientCall) (e : Envelope) :
  handleListBoards env args = (log, Normal e) ->
  isError e = None ->
  exists v r items,
    validateListBoards env args = Normal v /\
    client env (request ListBoards v) = Normal r /\
    data r = VArr items /\
    e = success env (VObj [
          ("summary",
           VStr ("Found " ++ String_ env (VNum (inject_Z (Z.of_nat (List.length items))))
                 ++ " " ++ String_ env (prop "filter" v) ++ " board(s)"));
          ("boards", VArr (map board_entry items));
          ("rateLimit", rateLimit r) ]).
Proof.
  intros H He. change (local_handle env ListBoards args = (log, Normal e)) in H.
  success_tail H He v r Ht.
  apply bind_Normal in Ht. destruct Ht as (l1 & len & l2 & Hlen & Ht & _).
  apply bind_Normal in Ht. destruct Ht as (l3 & len' & l4 & Hlen' & Ht & _).
  apply bind_Normal in Ht. destruct Ht as (l5 & filter' & l6 & Hfilter & Ht & _).
  apply bind_Normal in Ht. destruct Ht as (l7 & out & l8 & Hmap & Ht & _).
  injection Ht as _ <-.
  apply ToString_Normal in Hlen', Hfilter.
  destruct Hlen' as [_ ->]. destruct Hfilter as [_ ->].
  apply (array_map_map env _ _ board_entry) in Hmap; [|entry_callback].
  destruct Hmap as (items & Hd & -> & _).
  rewrite Hd in Hlen. simpl in Hlen. injection Hlen as _ <-.
  exists v, r, items. auto.
Qed.

(** A successful listing of a board's lists has one entry per list of
    the response, in the response's order, and repeats the board
    identifier the caller gave. *)
Theorem get_lists_keeps_every_list (env : Env) (args : Value)
    (log : list ClientCall) (e : Envelope) :
  handleGetLists env args = (log, Normal e) ->
  isError e = None ->
  exists v r items,
    validateGetBoardLists env args = Normal v /\
    client env (request GetLists v) = Normal r /\
    data r = VArr items /\
    e = success env (VObj [
          ("summary",
           VStr ("Found " ++ String_ env (VNum (inject_Z (Z.of_nat (List.length items))))
                 ++ " " ++ String_ env (prop "filter" v) ++ " list(s) in board"));
          ("boardId", prop "boardId" v);
          ("lists", VArr (map list_entry items));
          ("rateLimit", rateLimit r) ]).
Proof.
  intros H He. change (local_handle env GetLists args = (log, Normal e)) in H.
  success_tail H He v r Ht.
  apply bind_Normal in Ht. destruct Ht as (l1 & len & l2 & Hlen & Ht & _).
  apply bind_Normal in Ht. destruct Ht as (l3 & len' & l4 & Hlen' & Ht & _).
  apply bind_Normal in Ht. destruct Ht as (l5 & filter' & l6 & Hfilter & Ht & _).
  apply bind_Normal in Ht. destruct Ht as (l7 & out & l8 & Hmap & Ht & _).
  injection Ht as _ <-.
  apply ToString_Normal in Hlen', Hfilter.
  destruct Hlen' as [_ ->]. destruct Hfilter as [_ ->].
  apply (array_map_map env _ _ list_entry) in Hmap; [|entry_callback].
  destruct Hmap as (items & Hd & -> & _).
  rewrite Hd in Hlen. simpl in Hlen. injection Hlen as _ <-.
  exists v, r, items. auto.
Qed.

(** An environment whose client resolves every call with two entities,
    whose validators know the [filter] and [boardId] fields and whose
    number printer knows the count two. *)
Definition two_boards : Value :=
  VArr [ VObj [("id", VStr "b1"); ("name", VStr "Alpha"); ("desc", VStr "")];
         VObj [("id", VStr "b2"); ("name", VStr "Beta"); ("desc", VStr "second")] ].

Definition listing_env : Env :=
  {| JSON_stringify := JSON_stringify demo_env;
     Number_toString := fun q => if Qeq_bool q (inject_Z 2) then "2" else "0";
     TypeError_message := TypeError_message demo_env;
     NotAFunction_message := NotAFunction_message demo_env;
     ToPrimitive_message := ToPrimitive_message demo_env;
     datetime_regex := datetime_regex demo_env;
     formatValidationError := formatValidationError demo_env;
     validateListBoards :=
       schema_parse [ ("apiKey", z_string []); ("token", z_string []);
                      ("filter", z_optional (z_enum ["all"; "open"; "closed"])) ];
     validateGetBoard := validateGetBoard demo_env;
     validateGetBoardLists :=
       schema_parse [ ("apiKey", z_string []); ("token", z_string []);
                      ("boardId", trelloId);
                      ("filter", z_optional (z_enum ["all"; "open"; "closed"])) ];
     client := fun _ => Normal {| data := two_boards; rateLimit := VNull |};
     other_tool := other_tool demo_env;
     other_handle := other_handle demo_env |}.

Lemma list_boards_witness :
  exists v r items,
    validateListBoards listing_env
      (VObj [("apiKey", VStr "k"); ("token", VStr "t"); ("filter", VStr "open")])
    = Normal v /\
    client listing_env (request ListBoards v) = Normal r /\
    data r = VArr items /\
    {| content := [ {| type := "text"; text := "Found 2 open board(s)" |} ];
       isError := None |}
    = success listing_env (VObj [
          ("summary",
           VStr ("Found " ++ String_ listing_env
                               (VNum (inject_Z (Z.of_nat (List.length items))))
                 ++ " " ++ String_ listing_env (prop "filter" v) ++ " board(s)"));
          ("boards", VArr (map board_entry items));
          ("rateLimit", rateLimit r) ]).
Proof.
  apply (list_boards_keeps_every_board listing_env
           (VObj [("apiKey", VStr "k"); ("token", VStr "t"); ("filter", VStr "open")])
           [getMyBoards (mkCredentials (VStr "k") (VStr "t")) (VStr "open")]);
    reflexivity.
Defined.

Lemma get_lists_witness :
  exists v r items,
    validateGetBoardLists listing_env
      (VObj [("apiKey", VStr "k"); ("token", VStr "t"); ("boardId", VStr demo_id);
             ("filter", VStr "all")])
    = Normal v /\
    client listing_env (request GetLists v) = Normal r /\
    data r = VArr items /\
    {| content := [ {| type := "text"; text := "Found 2 all list(s) in board" |} ];
       isError := None |}
    = success listing_env (VObj [
          ("summary",
           VStr ("Found " ++ String_ listing_env
                               (VNum (inject_Z (Z.of_nat (List.length items))))
                 ++ " " ++ String_ listing_env (prop "filter" v) ++ " list(s) in board"));
          ("boardId", prop "boardId" v);
          ("lists", VArr (map list_entry items));
          ("rateLimit", rateLimit r) ]).
Proof.
  apply (get_lists_keeps_every_list listing_env
           (VObj [("apiKey", VStr "k"); ("token", VStr "t"); ("boardId", VStr demo_id);
                  ("filter", VStr "all")])
           [getBoardLists (mkCredentials (VStr "k") (VStr "t")) (VStr demo_id) (VStr "all")]);
    reflexivity.
Defined.

Example list_boards_entries :
  map board_entry [ VObj [("id", VStr "b1"); ("name", VStr "Alpha"); ("desc", VStr "")] ]
  = [ VObj [ ("id", VStr "b1"); ("name", VStr "Alpha");
             ("description", VStr "No description"); ("url", VUndefined);
             ("lastActivity", VUndefined); ("closed", VUndefined) ] ].
Proof. reflexivity. Qed.

(** The entries [handleGetBoardDetails] builds for the lists, cards and
    labels of a board, and the entry list it embeds for a property [d]
    that is an array, [null] or [undefined]: [d?.map(entry) || []]. *)
Definition detail_list_entry (l : Value) : Value :=
  let list := own_props l in
  VObj [ ("id", prop "id" list);
         ("name", prop "name" list);
         ("position", prop "pos" list);
         ("closed", prop "closed" list) ].

Definition label_entry (l : Value) : Value :=
  let label := own_props l in
  VObj [ ("id", prop "id" label);
         ("name", prop "name" label);
         ("color", prop "color" label) ].

Definition embedded (entry : Value -> Value) (d : Value) : Value :=
  match d with
  | VArr items => VArr (map entry items)
  | _ => VArr []
  end.

Definition card_entry (c : Value) : Value :=
  let card := own_props c in
  VObj [ ("id", prop "id" card);
         ("name", prop "name" card);
         ("description", prop "desc" card);
         ("url", prop "shortUrl" card);
         ("listId", prop "idList" card);
         ("position", prop "pos" card);
         ("due", prop "due" card);
         ("closed", prop "closed" card);
         ("labels", embedded label_entry (prop "labels" card)) ].

(** A copy of an environment with another [validateGetBoard]. *)
Definition with_validateGetBoard (env : Env) (f : Value -> Completion Obj) : Env :=
  {| JSON_stringify := JSON_stringify env;
     Number_toString := Number_toString env;
     TypeError_message := TypeError_message env;
     NotAFunction_message := NotAFunction_message env;
     ToPrimitive_message := ToPrimitive_message env;
     datetime_regex := datetime_regex env;
     formatValidationError := formatValidationError env;
     validateListBoards := validateListBoards env;
     validateGetBoard := f;
     validateGetBoardLists := validateGetBoardLists env;
     client := client env;
     other_tool := other_tool env;
     other_handle := other_handle env |}.

(** An environment whose client resolves with a board that has one
    list and no [cards] property. *)
Definition details_env : Env :=
  with_validateGetBoard
    (with_client demo_env
       (fun _ => Normal {| data := VObj [ ("id", VStr demo_id); ("name", VStr "Demo");
                                         ("lists", VArr [VObj [("id", VStr "l1");
                                                               ("name", VStr "To Do")]]) ];
                           rateLimit := VNull |}))
    (schema_parse [ ("apiKey", z_string []); ("token", z_string []);
                    ("boardId", trelloId); ("includeDetails", z_optional z_boolean) ]).

Lemma deref_own_props (env : Env) (d : Value) (k : string)
    (l : list ClientCall) (ps : Obj) :
  deref env d k = (l, Normal ps) -> nullish d = false /\ ps = own_props d.
Proof. destruct d; simpl; intros H; try discriminate H; injection H as _ <-; auto. Qed.

Lemma opt_map_embedded (env : Env) (callee : string) (f : Value -> M Value)
    (g : Value -> Value) (d : Value) (l : list ClientCall) (y : Value) :
  (forall x lx y, f x = (lx, Normal y) -> nullish x = false /\ y = g x) ->
  opt_array_map env callee d f = (l, Normal y) ->
  logical_or y (VArr []) = embedded g d /\ coalesce y (VArr []) = embedded g d.
Proof.
  intros Hf H.
  destruct (opt_array_map_map env callee f g d l y Hf H) as [[N ->]|(items & -> & -> & _)].
  - destruct d; try discriminate N; auto.
  - auto.
Qed.

Lemma label_callback (env : Env) (x : Value) (lx : list ClientCall) (y : Value) :
  (label <- deref env x "id" ;;
   ret (VObj [ ("id", prop "id" label);
               ("name", prop "name" label);
               ("color", prop "color" label) ])) = (lx, Normal y) ->
  nullish x = false /\ y = label_entry x.
Proof.
  intros H. destruct x; simpl in H; try discriminate H; injection H as _ <-;
    split; reflexivity.
Qed.

(** [handleGetBoardDetails] embeds the board's lists and cards exactly
    when the validated [includeDetails] is truthy.  When it does, each
    list and card of the response has its entry, in order, and a board
    without lists or cards gets empty arrays; when it does not, the
    result has neither key. *)
Theorem board_details_on_request (env : Env) (args : Value)
    (log : list ClientCall) (e : Envelope) :
  handleGetBoardDetails env args = (log, Normal e) ->
  isError e = None ->
  exists v r fields board,
    validateGetBoard env args = Normal v /\
    client env (request GetBoardDetails v) = Normal r /\
    e = success env (VObj fields) /\
    prop "board" fields = VObj board /\
    has_own "lists" board = truthy (prop "includeDetails" v) /\
    has_own "cards" board = truthy (prop "includeDetails" v) /\
    (truthy (prop "includeDetails" v) = true ->
     prop "lists" board
       = embedded detail_list_entry (prop "lists" (own_props (data r))) /\
     prop "cards" board
       = embedded card_entry (prop "cards" (own_props (data r)))).
Proof.
  intros H He. change (local_handle env GetBoardDetails args = (log, Normal e)) in H.
  success_tail H He v r Ht.
  apply bind_Normal in Ht. destruct Ht as (l1 & board & l2 & Hboard & Ht & _).
  apply deref_own_props in Hboard. destruct Hboard as [_ ->].
  apply bind_Normal in Ht. destruct Ht as (l9 & name' & l10 & Hname & Ht & _).
  apply bind_Normal in Ht. destruct Ht as (l3 & details & l4 & Hdetails & Ht & _).
  injection Ht as _ <-.
  exists v, r. eexists _, _. split; [assumption|]. split; [assumption|].
  split; [reflexivity|]. split; [reflexivity|].
  destruct (truthy (prop "includeDetails" v)) eqn:Hinc.
  - apply bind_Normal in Hdetails. destruct Hdetails as (l5 & lists & l6 & Hlists & Hd & _).
    apply bind_Normal in Hd. destruct Hd as (l7 & cards & l8 & Hcards & Hd & _).
    injection Hd as _ <-.
    apply (opt_map_embedded env _ _ detail_list_entry) in Hlists;
      [|intros x lx y Hx; destruct x; simpl in Hx; try discriminate Hx;
        injection Hx as _ <-; split; reflexivity].
    apply (opt_map_embedded env _ _ card_entry) in Hcards.
    + destruct Hlists as [Hlists _]. destruct Hcards as [Hcards _].
      simpl. rewrite Hlists, Hcards. auto.
    + intros x lx y Hx.
      apply bind_Normal in Hx. destruct Hx as (m1 & card & m2 & Hcard & Hx & _).
      apply deref_own_props in Hcard. destruct Hcard as [Hn ->].
      apply bind_Normal in Hx. destruct Hx as (m3 & labels & m4 & Hlabels & Hx & _).
      injection Hx as _ <-.
      apply (opt_map_embedded env _ _ label_entry) in Hlabels;
        [|intros x' lx' y' Hx'; exact (label_callback env x' lx' y' Hx')].
      destruct Hlabels as [Hlabels _].
      split; [exact Hn|]. unfold card_entry. cbv zeta. now rewrite <- Hlabels.
  - injection Hdetails as _ <-. simpl. repeat split; discriminate.
Qed.

Lemma board_details_witness :
  exists v r fields board,
    validateGetBoard details_env
      (VObj [("apiKey", VStr "k"); ("token", VStr "t"); ("boardId", VStr demo_id);
             ("includeDetails", VBool true)]) = Normal v /\
    client details_env (request GetBoardDetails v) = Normal r /\
    {| content := [ {| type := "text"; text := "Board: Demo" |} ]; isError := None |}
    = success details_env (VObj fields) /\
    prop "board" fields = VObj board /\
    has_own "lists" board = truthy (prop "includeDetails" v) /\
    has_own "cards" board = truthy (prop "includeDetails" v) /\
    (truthy (prop "includeDetails" v) = true ->
     prop "lists" board
       = embedded detail_list_entry (prop "lists" (own_props (data r))) /\
     prop "cards" board
       = embedded card_entry (prop "cards" (own_props (data r)))).
Proof.
  apply (board_details_on_request details_env
           (VObj [("apiKey", VStr "k"); ("token", VStr "t"); ("boardId", VStr demo_id);
                  ("includeDetails", VBool true)])
           [getBoard (mkCredentials (VStr "k") (VStr "t")) (VStr demo_id) (VBool true)]);
    reflexivity.
Defined.

(** A successful [handleTrelloGetChecklist] lists one entry per check
    item of the response, in order, and an empty array when the
    checklist has no [checkItems]. *)
Theorem checklist_items_projected (env : Env) (args : Value)
    (log : list ClientCall) (e : Envelope) :
  handleTrelloGetChecklist env args = (log, Normal e) ->
  isError e = None ->
  exists v r fields checklist,
    validateGetChecklist args = Normal v /\
    client env (request GetChecklist v) = Normal r /\
    e = success env (VObj fields) /\
    prop "checklist" fields = VObj checklist /\
    prop "checkItems" checklist
      = embedded item_entry (prop "checkItems" (own_props (data r))).
Proof.
  intros H He. change (local_handle env GetChecklist args = (log, Normal e)) in H.
  success_tail H He v r Ht.
  apply bind_Normal in Ht. destruct Ht as (l1 & checklist & l2 & Hchecklist & Ht & _).
  apply deref_own_props in Hchecklist. destruct Hchecklist as [_ ->].
  apply bind_Normal in Ht. destruct Ht as (l5 & name' & l6 & Hname & Ht & _).
  apply bind_Normal in Ht. destruct Ht as (l3 & items & l4 & Hitems & Ht & _).
  injection Ht as _ <-.
  apply (opt_map_embedded env _ _ item_entry) in Hitems;
    [|intros x lx y Hx; destruct x; simpl in Hx; try discriminate Hx;
      injection Hx as _ <-; split; reflexivity].
  destruct Hitems as [_ Hitems].
  exists v, r. eexists _, _. split; [assumption|]. split; [assumption|].
  split; [reflexivity|]. split; [reflexivity|]. simpl. exact Hitems.
Qed.

Lemma checklist_items_witness :
  exists v r fields checklist,
    validateGetChecklist
      (VObj [("apiKey", VStr "k"); ("token", VStr "t"); ("checklistId", VStr demo_id)])
    = Normal v /\
    client demo_env (request GetChecklist v) = Normal r /\
    {| content := [ {| type := "text"; text := "Checklist: Demo" |} ]; isError := None |}
    = success demo_env (VObj fields) /\
    prop "checklist" fields = VObj checklist /\
    prop "checkItems" checklist
      = embedded item_entry (prop "checkItems" (own_props (data r))).
Proof.
  apply (checklist_items_projected demo_env
           (VObj [("apiKey", VStr "k"); ("token", VStr "t"); ("checklistId", VStr demo_id)])
           [getChecklist (mkCredentials (VStr "k") (VStr "t")) (VStr demo_id)]);
    reflexivity.
Defined.

(* ================================================================== *)
(** * The advertised schema and the enforced one *)
(* ================================================================== *)

(** [tool.inputSchema.properties] and [tool.inputSchema.required]. *)
Definition advertised_properties (tool : Tool) : Obj :=
  own_props (prop "properties" (own_props (inputSchema tool))).

Definition advertised_required (tool : Tool) : Value :=
  prop "required" (own_props (inputSchema tool)).

(** The descriptor of each tool with a schema of its own advertises
    exactly the keys its validator declares, in the same order, marks
    as required exactly the keys the validator requires, and gives
    every identifier field the pattern the validator enforces. *)
Theorem advertised_schema_matches_validation (env : Env) (t : LocalTool) (shape : Shape) :
  schema_of env t = Some shape ->
  keys (advertised_properties (local_tool t)) = declared_keys env t /\
  advertised_required (local_tool t) = VArr (map VStr (required_fields env t)) /\
  (forall k, In k (id_fields t) ->
     prop "pattern" (own_props (prop k (advertised_properties (local_tool t))))
     = VStr "^[a-f0-9]{24}$").
Proof.
  intros Hs. destruct t; try discriminate Hs; (split; [reflexivity|]);
    (split; [reflexivity|]); simpl;
    intros k Hk; repeat (destruct Hk as [<-|Hk]; [reflexivity|]); contradiction.
Qed.

Lemma advertised_schema_witness :
  keys (advertised_properties (local_tool UpdateChecklistItem))
  = declared_keys demo_env UpdateChecklistItem /\
  advertised_required (local_tool UpdateChecklistItem)
  = VArr (map VStr (required_fields demo_env UpdateChecklistItem)) /\
  (forall k, In k (id_fields UpdateChecklistItem) ->
     prop "pattern"
       (own_props (prop k (advertised_properties (local_tool UpdateChecklistItem))))
     = VStr "^[a-f0-9]{24}$").
Proof.
  exact (advertised_schema_matches_validation demo_env UpdateChecklistItem _ eq_refl).
Defined.
